(** * configify-consul: a Consul-backed configuration source

    A shallow embedding of [src/consul.go] (and of the option-based
    constructor of [src/unnamed/part_001]) together with the properties
    of its refresh cycle, its watch slot and its typed accessors.

    Conventions.
    - Go strings are byte strings: [string].  [[]byte] is [list byte].
    - [uint64] indices are [N]; no arithmetic is performed on them, so
      wrap-around never arises.  Signed and unsigned machine integers are
      [Z], and every Go conversion [intN(x)] / [uintN(x)] is written out as
      a bit truncation.
    - [map[string]string] is [gmap string string]; the nil map of a fresh
      struct is [None].
    - A method call on a nil interface panics: accessors return [option],
      and [None] stands for that panic. *)

From Stdlib Require Import ZArith NArith String Ascii List Lia.
From Stdlib Require Import Strings.Byte.
From Stdlib Require Import Sorting.Sorted.
From stdpp Require Import gmap strings list.

Local Open Scope Z_scope.

(** ** Go conversions between integer types *)

Module Go.

(** [uintN(x)]: keep the low [w] bits. *)
Definition truncU (w : Z) (x : Z) : Z := Z.land x (Z.ones w).

(** [intN(x)]: keep the low [w] bits and read bit [w-1] as the sign. *)
Definition truncS (w : Z) (x : Z) : Z :=
  if Z.testbit x (w - 1) then truncU w x - 2 ^ w else truncU w x.

Definition int8 := truncS 8.
Definition int16 := truncS 16.
Definition int32 := truncS 32.
Definition uint8 := truncU 8.
Definition uint16 := truncU 16.
Definition uint32 := truncU 32.

(** [string(b)] for [b : []byte]. *)
Definition string_of_bytes (b : list byte) : string := string_of_list_byte b.

End Go.

(** ** The Consul API as the package sees it *)

Module api.

Record KVPair := { Key : string; Value : list byte }.

(** What [KV.List(prefix, nil)] hands back: an error, or the pairs with
    the [LastIndex] of the query metadata. *)
Inductive ListResult :=
| ListErr
| ListOk (pairs : list KVPair) (LastIndex : N).

Record HttpBasicAuth := { AuthUsername : string; AuthPassword : string }.

(** [api.Config]: the two fields the package assigns, and the rest of
    the struct, which it takes from [api.DefaultConfig()] and never
    touches. *)
Record Config (Other : Type) := {
  ConfigAddress : string;
  HttpAuth : option HttpBasicAuth;
  ConfigOther : Other;
}.

Arguments ConfigAddress {Other}.
Arguments HttpAuth {Other}.
Arguments ConfigOther {Other}.

End api.

(** ** What the package imports

    Everything that lives outside this repository: the value types of the
    Go standard library that the accessors merely pass along,
    [strings.TrimSpace], the namespace rule and the [configify.Massage]
    coercions, the width of [int], and the Consul client constructor. *)

Class Extern := {
  float32 : Type;
  float64 : Type;
  time_Time : Type;
  float32_zero : float32;
  float64_zero : float64;
  time_zero : time_Time;
  (** [float32(x)] *)
  to_float32 : float64 -> float32;
  (** [strconv.IntSize]: 32 or 64 *)
  IntSize : Z;
  (** [strings.TrimSpace] *)
  TrimSpace : string -> string;
  (** [configify.Namespace.Qualify], on the name and the delimiter *)
  Qualify : string -> string -> string -> string;
  (** [configify.Massage] *)
  StringToSlice : string -> list string * bool;
  StringToInt64 : string -> Z * bool;
  StringToUint64 : string -> Z * bool;
  StringToFloat64 : string -> float64 * bool;
  StringToBool : string -> bool * bool;
  StringToDuration : string -> Z * bool;
  StringToTime : string -> time_Time * bool;
  (** [*api.Client] and [api.NewClient], which fails on a configuration
      it cannot build a transport for *)
  Client : Type;
  ConfigRest : Type;
  NewClient : api.Config ConfigRest -> option Client;
  (** [api.DefaultConfig()]: the configuration the Consul client library
      derives from its defaults and the process environment *)
  DefaultConfig : api.Config ConfigRest;
  (** [func(source configify.Source)], known by its identity only *)
  Callback : Type;
}.

Module configify.
Section Configify.
Context {E : Extern}.

Record Namespace := { Name : string; Delimiter : string }.

(** The [configify.Source] interface. *)
Record Source := {
  String : string -> string * bool;
  StringSlice : string -> list string * bool;
  Int : string -> Z * bool;
  Int8 : string -> Z * bool;
  Int16 : string -> Z * bool;
  Int32 : string -> Z * bool;
  Int64 : string -> Z * bool;
  Uint : string -> Z * bool;
  Uint8 : string -> Z * bool;
  Uint16 : string -> Z * bool;
  Uint32 : string -> Z * bool;
  Uint64 : string -> Z * bool;
  Float32 : string -> float32 * bool;
  Float64 : string -> float64 * bool;
  Bool : string -> bool * bool;
  Duration : string -> Z * bool;
  Time : string -> time_Time * bool;
}.

(** [context.Context]: all the package ever asks is whether [Done()] is
    closed. *)
Record Ctx := { ctxDone : bool }.

Record Options := {
  Context : option Ctx;
  Address : string;
  Username : string;
  Password : string;
  Namespace_ : Namespace;
  RefreshInterval : Z;
  Defaults : option Source;
}.

(** Modelled from the spec: [configify.Empty()] is not under src/; the
    spec has it answer every lookup with the zero value and
    [found = false]. *)
Definition Empty : Source := {|
  String := fun _ => (EmptyString, false);
  StringSlice := fun _ => (nil, false);
  Int := fun _ => (0, false);
  Int8 := fun _ => (0, false);
  Int16 := fun _ => (0, false);
  Int32 := fun _ => (0, false);
  Int64 := fun _ => (0, false);
  Uint := fun _ => (0, false);
  Uint8 := fun _ => (0, false);
  Uint16 := fun _ => (0, false);
  Uint32 := fun _ => (0, false);
  Uint64 := fun _ => (0, false);
  Float32 := fun _ => (float32_zero, false);
  Float64 := fun _ => (float64_zero, false);
  Bool := fun _ => (false, false);
  Duration := fun _ => (0, false);
  Time := fun _ => (time_zero, false);
|}.

End Configify.
End configify.

(** ** package consul *)

Section Consul.
Context {E : Extern}.

(** [consul.Options] of src/consul.go. *)
Record Options := {
  Options_ : configify.Options;
  Client_ : option Client;
  RefreshInterval : Z;
}.

Record consulSource := {
  kv : Client;
  options : Options;
  values : option (gmap string string);
  lastIndex : N;
  watcher : option Callback;
}.

Definition Namespace_of (c : consulSource) : configify.Namespace :=
  configify.Namespace_ (Options_ (options c)).

Definition Defaults_of (c : consulSource) : option configify.Source :=
  configify.Defaults (Options_ (options c)).

(** [c.options.Namespace.Qualify(key)] *)
Definition qualify (c : consulSource) (key : string) : string :=
  Qualify (configify.Name (Namespace_of c))
          (configify.Delimiter (Namespace_of c)) key.

(** Reading a Go map; a nil map has no entries. *)
Definition mapGet (m : option (gmap string string)) (k : string)
  : option string :=
  match m with
  | Some m => m !! k
  | None => None
  end.

Definition lookup (c : consulSource) (key : string) : string * bool :=
  match mapGet (values c) (qualify c key) with
  | Some value => (TrimSpace value, true)
  | None => (EmptyString, false)
  end.

Definition Watch (callback : option Callback) (c : consulSource)
  : consulSource :=
  {| kv := kv c; options := options c; values := values c;
     lastIndex := lastIndex c; watcher := callback |}.

(** [c.options.Defaults.M(key)]: the method [M] of the Defaults source,
    a panic when the interface is nil. *)
Definition viaDefaults {T : Type}
    (M : configify.Source -> string -> T * bool)
    (c : consulSource) (key : string) : option (T * bool) :=
  match Defaults_of c with
  | Some d => Some (M d key)
  | None => None
  end.

Definition String (c : consulSource) (key : string)
  : option (string * bool) :=
  let '(value, ok) := lookup c key in
  if negb ok then viaDefaults configify.String c key
  else Some (value, true).

Definition StringSlice (c : consulSource) (key : string)
  : option (list string * bool) :=
  let '(value, ok) := lookup c key in
  if negb ok then viaDefaults configify.StringSlice c key
  else Some (StringToSlice value).

Definition Int (c : consulSource) (key : string) : option (Z * bool) :=
  let '(value, ok) := lookup c key in
  if negb ok then viaDefaults configify.Int c key
  else let '(number, ok) := StringToInt64 value in
       Some (Go.truncS IntSize number, ok).

Definition Int8 (c : consulSource) (key : string) : option (Z * bool) :=
  let '(value, ok) := lookup c key in
  if negb ok then viaDefaults configify.Int8 c key
  else let '(number, ok) := StringToInt64 value in
       Some (Go.int8 number, ok).

Definition Int16 (c : consulSource) (key : string) : option (Z * bool) :=
  let '(value, ok) := lookup c key in
  if negb ok then viaDefaults configify.Int16 c key
  else let '(number, ok) := StringToInt64 value in
       Some (Go.int16 number, ok).

Definition Int32 (c : consulSource) (key : string) : option (Z * bool) :=
  let '(value, ok) := lookup c key in
  if negb ok then viaDefaults configify.Int32 c key
  else let '(number, ok) := StringToInt64 value in
       Some (Go.int32 number, ok).

Definition Int64 (c : consulSource) (key : string) : option (Z * bool) :=
  let '(value, ok) := lookup c key in
  if negb ok then viaDefaults configify.Int64 c key
  else Some (StringToInt64 value).

Definition Uint (c : consulSource) (key : string) : option (Z * bool) :=
  let '(value, ok) := lookup c key in
  if negb ok then viaDefaults configify.Uint c key
  else let '(number, ok) := StringToUint64 value in
       Some (Go.truncU IntSize number, ok).

Definition Uint8 (c : consulSource) (key : string) : option (Z * bool) :=
  let '(value, ok) := lookup c key in
  if negb ok then viaDefaults configify.Uint8 c key
  else let '(number, ok) := StringToUint64 value in
       Some (Go.uint8 number, ok).

Definition Uint16 (c : consulSource) (key : string) : option (Z * bool) :=
  let '(value, ok) := lookup c key in
  if negb ok then viaDefaults configify.Uint16 c key
  else let '(number, ok) := StringToUint64 value in
       Some (Go.uint16 number, ok).

Definition Uint32 (c : consulSource) (key : string) : option (Z * bool) :=
  let '(value, ok) := lookup c key in
  if negb ok then viaDefaults configify.Uint32 c key
  else let '(number, ok) := StringToUint64 value in
       Some (Go.uint32 number, ok).

Definition Uint64 (c : consulSource) (key : string) : option (Z * bool) :=
  let '(value, ok) := lookup c key in
  if negb ok then viaDefaults configify.Uint64 c key
  else Some (StringToUint64 value).

Definition Float32 (c : consulSource) (key : string)
  : option (float32 * bool) :=
  let '(value, ok) := lookup c key in
  if negb ok then viaDefaults configify.Float32 c key
  else let '(number, ok) := StringToFloat64 value in
       Some (to_float32 number, ok).

Definition Float64 (c : consulSource) (key : string)
  : option (float64 * bool) :=
  let '(value, ok) := lookup c key in
  if negb ok then viaDefaults configify.Float64 c key
  else Some (StringToFloat64 value).

Definition Bool (c : consulSource) (key : string)
  : option (bool * bool) :=
  let '(value, ok) := lookup c key in
  if negb ok then viaDefaults configify.Bool c key
  else Some (StringToBool value).

Definition Duration (c : consulSource) (key : string)
  : option (Z * bool) :=
  let '(value, ok) := lookup c key in
  if negb ok then viaDefaults configify.Duration c key
  else Some (StringToDuration value).

Definition Time (c : consulSource) (key : string)
  : option (time_Time * bool) :=
  let '(value, ok) := lookup c key in
  if negb ok then viaDefaults configify.Time c key
  else Some (StringToTime value).

(** [Options()] *)
Definition Options_method (c : consulSource) : configify.Options :=
  Options_ (options c).

(** *** refresh *)

(** The loop over [pairs] that fills [updatedValues]. *)
Definition updatedValues (pairs : list api.KVPair) : gmap string string :=
  fold_left
    (fun m pair => <[api.Key pair := Go.string_of_bytes (api.Value pair)]> m)
    pairs ∅.

(** One call the package makes to the registered callback, with the
    source it passes. *)
Definition Call : Type := Callback * consulSource.

(** [refresh], from the moment [c.kv.List] has returned [r]: the new
    state of the source and the callback calls made on the way. *)
Definition refresh (r : api.ListResult) (c : consulSource)
  : consulSource * list Call :=
  match r with
  | api.ListErr => (c, [])
  | api.ListOk pairs LastIndex =>
      if (LastIndex <=? lastIndex c)%N then (c, [])
      else
        let c' := {| kv := kv c; options := options c;
                     values := Some (updatedValues pairs);
                     lastIndex := LastIndex;
                     watcher := watcher c |} in
        match watcher c' with
        | Some w => (c', [(w, c')])
        | None => (c', [])
        end
  end.

(** *** listen

    The goroutine started by [listen] is either parked in its [select],
    inside [refresh] waiting for [kv.List], or has returned. *)
Inductive Loop := Select | Listing | Returned.

Record System := {
  source : consulSource;
  loop : Loop;
  (** [Context.Done()] is closed *)
  done : bool;
  (** callback calls so far, oldest first *)
  calls : list Call;
}.

(** What can happen to a running source.  The timer of [time.After] is
    created when the [select] is entered, so on entry only [Done()] can
    already be ready. *)
Inductive Event :=
| CtxCancel
| TimerFire
| ListReturn (r : api.ListResult)
| CallWatch (callback : option Callback).

Definition enterSelect (done : bool) : Loop :=
  if done then Returned else Select.

Definition step (s : System) (e : Event) : System :=
  match e with
  | CtxCancel =>
      {| source := source s;
         loop := match loop s with Select => Returned | l => l end;
         done := true; calls := calls s |}
  | TimerFire =>
      {| source := source s;
         loop := match loop s with Select => Listing | l => l end;
         done := done s; calls := calls s |}
  | ListReturn r =>
      match loop s with
      | Listing =>
          let '(c, made) := refresh r (source s) in
          {| source := c; loop := enterSelect (done s);
             done := done s; calls := calls s ++ made |}
      | _ => s
      end
  | CallWatch callback =>
      {| source := Watch callback (source s); loop := loop s;
         done := done s; calls := calls s |}
  end.

Definition run (s : System) (es : list Event) : System :=
  fold_left step es s.

(** [listen]: start the goroutine; the error it returns is always nil. *)
Definition listen (ctx : configify.Ctx) (c : consulSource)
    (made : list Call) : System * option string :=
  ({| source := c; loop := enterSelect (configify.ctxDone ctx);
      done := configify.ctxDone ctx; calls := made |}, None).

(** *** NewSource (src/consul.go) *)

Definition second : Z := 1000000000.

Definition NewSource (opts : Options) (first : api.ListResult)
  : string + System :=
  match configify.Context (Options_ opts) with
  | None => inl "consul source: context is nil"%string
  | Some ctx =>
      match Client_ opts with
      | None => inl "consul source: client is nil"%string
      | Some client =>
          let interval :=
            if RefreshInterval opts <? 1 * second then 10 * second
            else RefreshInterval opts in
          let o := Options_ opts in
          let defaults :=
            match configify.Defaults o with
            | None => Some configify.Empty
            | Some d => Some d
            end in
          let opts' :=
            {| Options_ :=
                 {| configify.Context := configify.Context o;
                    configify.Address := configify.Address o;
                    configify.Username := configify.Username o;
                    configify.Password := configify.Password o;
                    configify.Namespace_ := configify.Namespace_ o;
                    configify.RefreshInterval := configify.RefreshInterval o;
                    configify.Defaults := defaults |};
               Client_ := Client_ opts;
               RefreshInterval := interval |} in
          let source0 :=
            {| kv := client; options := opts'; values := None;
               lastIndex := 0%N; watcher := None |} in
          let '(c, made) := refresh first source0 in
          match listen ctx c made with
          | (s, None) => inr s
          | (_, Some err) => inl err
          end
      end
  end.

End Consul.

(** *** NewSource (src/unnamed/part_001)

    The older constructor takes functional options and builds the Consul
    client itself.  Its [consulSource] keeps [configify.Options] directly
    (and the client beside [kv]); [refresh], [listen], [lookup], [Watch]
    and the accessors are the same text as in src/consul.go, so the source
    it builds is given in the record above, the interval copied over. *)

Module WithAddress.
Section WithAddress.
Context {E : Extern}.

(** [configify.Option]: a function that edits the options. *)
Definition Option_ : Type := configify.Options -> configify.Options.

Definition apply (opts : list Option_) (defaults : configify.Options)
  : configify.Options :=
  fold_left (fun o option => option o) opts defaults.

Definition nonEmpty (s : string) : bool :=
  match s with EmptyString => false | _ => true end.

Definition toConsulConfig (o : configify.Options) : api.Config ConfigRest :=
  let consulConfig := DefaultConfig in
  let consulConfig :=
    {| api.ConfigAddress := configify.Address o;
       api.HttpAuth := api.HttpAuth consulConfig;
       api.ConfigOther := api.ConfigOther consulConfig |} in
  if nonEmpty (configify.Username o) || nonEmpty (configify.Password o)
  then {| api.ConfigAddress := api.ConfigAddress consulConfig;
          api.HttpAuth :=
            Some {| api.AuthUsername := configify.Username o;
                    api.AuthPassword := configify.Password o |};
          api.ConfigOther := api.ConfigOther consulConfig |}
  else consulConfig.

(** [&configify.Options{Defaults: configify.Empty(), RefreshInterval: 10s}] *)
Definition initial : configify.Options :=
  {| configify.Context := None;
     configify.Address := EmptyString;
     configify.Username := EmptyString;
     configify.Password := EmptyString;
     configify.Namespace_ :=
       {| configify.Name := EmptyString;
          configify.Delimiter := EmptyString |};
     configify.RefreshInterval := 10 * second;
     configify.Defaults := Some configify.Empty |}.

Definition NewSource (opts : list Option_) (first : api.ListResult)
  : string + System :=
  let o := apply opts initial in
  match configify.Context o with
  | None => inl "consul source: missing context option"%string
  | Some ctx =>
      if negb (nonEmpty (configify.Address o))
      then inl "consul source: missing address option"%string
      else
        match NewClient (toConsulConfig o) with
        | None => inl "consul source: connect error"%string
        | Some client =>
            let source0 :=
              {| kv := client;
                 options := {| Options_ := o; Client_ := Some client;
                               RefreshInterval :=
                                 configify.RefreshInterval o |};
                 values := None; lastIndex := 0%N; watcher := None |} in
            let '(c, made) := refresh first source0 in
            match listen ctx c made with
            | (s, None) => inr s
            | (_, Some err) => inl err
            end
        end
  end.

End WithAddress.
End WithAddress.

(** ** The accessors as one family

    [get k] is the accessor of kind [k] as the source has it; [parse] and
    [get_contract] restate the documented contract (one coercion path,
    widest parse then truncation, Defaults on a miss) to compare with. *)

Inductive Kind :=
| KString | KStringSlice
| KInt | KInt8 | KInt16 | KInt32 | KInt64
| KUint | KUint8 | KUint16 | KUint32 | KUint64
| KFloat32 | KFloat64 | KBool | KDuration | KTime.

Section Family.
Context {E : Extern}.

Definition GoType (k : Kind) : Type :=
  match k with
  | KString => string
  | KStringSlice => list string
  | KFloat32 => float32
  | KFloat64 => float64
  | KBool => bool
  | KTime => time_Time
  | _ => Z
  end.

Definition zero (k : Kind) : GoType k :=
  match k with
  | KString => EmptyString
  | KStringSlice => nil
  | KFloat32 => float32_zero
  | KFloat64 => float64_zero
  | KBool => false
  | KTime => time_zero
  | KInt | KInt8 | KInt16 | KInt32 | KInt64
  | KUint | KUint8 | KUint16 | KUint32 | KUint64 | KDuration => 0
  end.

(** The accessor of each kind, as written in the source. *)
Definition get (k : Kind) (c : consulSource) (key : string)
  : option (GoType k * bool) :=
  match k with
  | KString => String c key
  | KStringSlice => StringSlice c key
  | KInt => Int c key
  | KInt8 => Int8 c key
  | KInt16 => Int16 c key
  | KInt32 => Int32 c key
  | KInt64 => Int64 c key
  | KUint => Uint c key
  | KUint8 => Uint8 c key
  | KUint16 => Uint16 c key
  | KUint32 => Uint32 c key
  | KUint64 => Uint64 c key
  | KFloat32 => Float32 c key
  | KFloat64 => Float64 c key
  | KBool => Bool c key
  | KDuration => Duration c key
  | KTime => Time c key
  end.

(** The same method of a [configify.Source]. *)
Definition sourceGet (k : Kind) (d : configify.Source) (key : string)
  : GoType k * bool :=
  match k with
  | KString => configify.String d key
  | KStringSlice => configify.StringSlice d key
  | KInt => configify.Int d key
  | KInt8 => configify.Int8 d key
  | KInt16 => configify.Int16 d key
  | KInt32 => configify.Int32 d key
  | KInt64 => configify.Int64 d key
  | KUint => configify.Uint d key
  | KUint8 => configify.Uint8 d key
  | KUint16 => configify.Uint16 d key
  | KUint32 => configify.Uint32 d key
  | KUint64 => configify.Uint64 d key
  | KFloat32 => configify.Float32 d key
  | KFloat64 => configify.Float64 d key
  | KBool => configify.Bool d key
  | KDuration => configify.Duration d key
  | KTime => configify.Time d key
  end.

Definition found {T : Type} (r : T * bool) : option T :=
  if snd r then Some (fst r) else None.

(** The contract's [parse]: a string is its own value; an integer is
    parsed at 64 bits and truncated to the requested width; the other
    kinds are whatever the coercion library makes of the text. *)
Definition parse (k : Kind) (s : string) : option (GoType k) :=
  match k with
  | KString => Some s
  | KStringSlice => found (StringToSlice s)
  | KInt => option_map (Go.truncS IntSize) (found (StringToInt64 s))
  | KInt8 => option_map (Go.truncS 8) (found (StringToInt64 s))
  | KInt16 => option_map (Go.truncS 16) (found (StringToInt64 s))
  | KInt32 => option_map (Go.truncS 32) (found (StringToInt64 s))
  | KInt64 => found (StringToInt64 s)
  | KUint => option_map (Go.truncU IntSize) (found (StringToUint64 s))
  | KUint8 => option_map (Go.truncU 8) (found (StringToUint64 s))
  | KUint16 => option_map (Go.truncU 16) (found (StringToUint64 s))
  | KUint32 => option_map (Go.truncU 32) (found (StringToUint64 s))
  | KUint64 => found (StringToUint64 s)
  | KFloat32 => option_map to_float32 (found (StringToFloat64 s))
  | KFloat64 => found (StringToFloat64 s)
  | KBool => found (StringToBool s)
  | KDuration => found (StringToDuration s)
  | KTime => found (StringToTime s)
  end.

(** The contract of [get<T>], steps 1 to 4 of the design. *)
Definition get_contract (k : Kind) (c : consulSource) (key : string)
  : option (GoType k * bool) :=
  match mapGet (values c) (qualify c key) with
  | None =>
      match Defaults_of c with
      | Some d => Some (sourceGet k d key)
      | None => None
      end
  | Some raw =>
      match parse k (TrimSpace raw) with
      | Some v => Some (v, true)
      | None => Some (zero k, false)
      end
  end.

(** The coercion library hands back the zero value whenever it reports
    failure, and [float32(0)] is [0]. *)
Record ZeroOnFailure : Prop := {
  zf_slice : forall s, snd (StringToSlice s) = false ->
                       fst (StringToSlice s) = nil;
  zf_int64 : forall s, snd (StringToInt64 s) = false ->
                       fst (StringToInt64 s) = 0;
  zf_uint64 : forall s, snd (StringToUint64 s) = false ->
                        fst (StringToUint64 s) = 0;
  zf_float64 : forall s, snd (StringToFloat64 s) = false ->
                         fst (StringToFloat64 s) = float64_zero;
  zf_bool : forall s, snd (StringToBool s) = false ->
                      fst (StringToBool s) = false;
  zf_duration : forall s, snd (StringToDuration s) = false ->
                          fst (StringToDuration s) = 0;
  zf_time : forall s, snd (StringToTime s) = false ->
                      fst (StringToTime s) = time_zero;
  zf_float32 : to_float32 float64_zero = float32_zero;
}.

(** The same source with another Defaults source (or none). *)
Definition withDefaults (d : option configify.Source) (c : consulSource)
  : consulSource :=
  let o := Options_ (options c) in
  {| kv := kv c;
     options :=
       {| Options_ :=
            {| configify.Context := configify.Context o;
               configify.Address := configify.Address o;
               configify.Username := configify.Username o;
               configify.Password := configify.Password o;
               configify.Namespace_ := configify.Namespace_ o;
               configify.RefreshInterval := configify.RefreshInterval o;
               configify.Defaults := d |};
          Client_ := Client_ (options c);
          RefreshInterval := RefreshInterval (options c) |};
     values := values c; lastIndex := lastIndex c; watcher := watcher c |}.

(** A snapshot exists once some refresh has stored a map. *)
Definition hasSnapshot (c : consulSource) : bool :=
  match values c with Some _ => true | None => false end.

(** The callbacks called, in order. *)
Definition called (s : System) : list Callback := map fst (calls s).

(** A system some run of the package can be in. *)
Definition reachable (s : System) : Prop :=
  exists opts first s0 es, NewSource opts first = inr s0 /\ s = run s0 es.

(** Reading "notified only over an earlier snapshot" literally: a
    returning listing makes a call only if a callback is registered and
    a snapshot was already there. *)
Definition notifies_only_over_snapshot : Prop :=
  forall (s : System) (r : api.ListResult),
    reachable s -> loop s = Listing ->
    calls (step s (ListReturn r)) <> calls s ->
    watcher (source s) <> None /\ hasSnapshot (source s) = true.

(** Reading "frozen from the cancellation signal on" literally: whatever
    happens after [Done()] is closed, every accessor answers as it did
    at that moment. *)
Definition frozen_by_signal : Prop :=
  forall (s : System) (es : list Event) (k : Kind) (key : string),
    reachable s ->
    get k (source (run (step s CtxCancel) es)) key
    = get k (source (step s CtxCancel)) key.

(** The indices of the snapshots the callbacks were shown, oldest first. *)
Definition seen (s : System) : list N :=
  map (fun call : Call => lastIndex (snd call)) (calls s).

(** The struct [NewSource] of src/consul.go builds before its first
    [refresh]: the caller's options with the interval and the Defaults
    filled in, no snapshot, index 0, no callback. *)
Definition started (opts : Options) (client : Client) : consulSource :=
  {| kv := client;
     options :=
       {| Options_ :=
            {| configify.Context := configify.Context (Options_ opts);
               configify.Address := configify.Address (Options_ opts);
               configify.Username := configify.Username (Options_ opts);
               configify.Password := configify.Password (Options_ opts);
               configify.Namespace_ := configify.Namespace_ (Options_ opts);
               configify.RefreshInterval :=
                 configify.RefreshInterval (Options_ opts);
               configify.Defaults :=
                 match configify.Defaults (Options_ opts) with
                 | None => Some configify.Empty
                 | Some d => Some d
                 end |};
          Client_ := Client_ opts;
          RefreshInterval :=
            if RefreshInterval opts <? 1 * second then 10 * second
            else RefreshInterval opts |};
     values := None; lastIndex := 0%N; watcher := None |}.

(** The events of a run that are not a cancellation. *)
Definition notCancel (e : Event) : Prop := e <> CtxCancel.

End Family.

(** ** A fixture to run the package on

    An instance of the imports that is enough to evaluate the package on
    the store of the repository's test suite.  It stands in for code that
    is not under src/: whitespace is the six ASCII blanks of
    [strings.TrimSpace]'s fast path, numbers are plain decimal numerals,
    and a client is the address it was built for. *)

Module Fixture.

Definition asciiSpace (a : ascii) : bool :=
  let n := N_of_ascii a in
  ((9 <=? n) && (n <=? 13) || (n =? 32))%N.

Fixpoint trimLeft (s : string) : string :=
  match s with
  | String.String a s' => if asciiSpace a then trimLeft s' else s
  | EmptyString => EmptyString
  end.

Fixpoint trimRight (s : string) : string :=
  match s with
  | EmptyString => EmptyString
  | String.String a s' =>
      match trimRight s' with
      | EmptyString =>
          if asciiSpace a then EmptyString
          else String.String a EmptyString
      | t => String.String a t
      end
  end.

Definition trimSpace (s : string) : string := trimRight (trimLeft s).

(** Modelled from the spec: [Namespace.Qualify] is not under src/; the
    spec gives [name + delimiter + key] for a non-empty name and [key]
    otherwise. *)
Definition qualifyRule (name delimiter key : string) : string :=
  match name with
  | EmptyString => key
  | _ => (name ++ delimiter ++ key)%string
  end.

Fixpoint digits (s : string) (acc : Z) : option Z :=
  match s with
  | EmptyString => Some acc
  | String.String a s' =>
      let n := Z.of_N (N_of_ascii a) in
      if (48 <=? n) && (n <=? 57) then digits s' (10 * acc + (n - 48))
      else None
  end.

Definition numeral (s : string) : option Z :=
  match s with
  | EmptyString => None
  | _ => digits s 0
  end.

Definition toUint64 (s : string) : Z * bool :=
  match numeral s with
  | Some n => if n <? 2 ^ 64 then (n, true) else (0, false)
  | None => (0, false)
  end.

Definition toInt64 (s : string) : Z * bool :=
  match s with
  | String.String "-"%char s' =>
      match numeral s' with
      | Some n => if n <=? 2 ^ 63 then (- n, true) else (0, false)
      | None => (0, false)
      end
  | _ =>
      match numeral s with
      | Some n => if n <? 2 ^ 63 then (n, true) else (0, false)
      | None => (0, false)
      end
  end.

Definition toBool (s : string) : bool * bool :=
  if (s =? "true")%string || (s =? "TRUE")%string then (true, true)
  else if (s =? "false")%string || (s =? "FALSE")%string then (false, true)
  else (false, false).

(** Split at commas, trimming each piece. *)
Fixpoint pieces (s : string) (cur : string) : list string :=
  match s with
  | EmptyString => [trimSpace cur]
  | String.String a s' =>
      if (a =? ",")%char then trimSpace cur :: pieces s' EmptyString
      else pieces s' (cur ++ String.String a EmptyString)%string
  end.

(** A client cannot be built for an address that names a foreign
    scheme. *)
Definition newClient (cfg : api.Config unit) : option string :=
  if String.prefix "ftp://" (api.ConfigAddress cfg) then None
  else Some (api.ConfigAddress cfg).

Definition imports : Extern := {|
  float32 := Z;
  float64 := Z;
  time_Time := Z;
  float32_zero := 0;
  float64_zero := 0;
  time_zero := 0;
  to_float32 := fun x => x;
  IntSize := 64;
  TrimSpace := trimSpace;
  Qualify := qualifyRule;
  StringToSlice := fun s => (pieces s EmptyString, true);
  StringToInt64 := toInt64;
  StringToUint64 := toUint64;
  StringToFloat64 := toInt64;
  StringToBool := toBool;
  StringToDuration := fun _ => (0, false);
  StringToTime := fun _ => (0, false);
  Client := string;
  ConfigRest := unit;
  NewClient := newClient;
  DefaultConfig :=
    {| api.ConfigAddress := "127.0.0.1:8500";
       api.HttpAuth :=
         Some {| api.AuthUsername := "env"; api.AuthPassword := "secret" |};
       api.ConfigOther := tt |};
  Callback := nat;
|}.

#[local] Existing Instance imports.

Definition bytes (s : string) : list byte := list_byte_of_string s.

Definition pair (k v : string) : api.KVPair :=
  {| api.Key := k; api.Value := bytes v |}.

(** The pairs [resetStore] of the test suite writes under ["FOO"], the
    port padded with blanks. *)
Definition store : list api.KVPair :=
  [ pair "FOO/EMPTY" "";
    pair "FOO/HTTP_HOST" "foo.example.com";
    pair "FOO/HTTP_PORT" " 1234 ";
    pair "FOO/BOOL_TRUE" "true";
    pair "FOO/LABELS" "a, b,   c ,d " ].

Definition store' : list api.KVPair :=
  [ pair "FOO/HTTP_HOST" "google.com";
    pair "FOO/HTTP_PORT" "1234" ].

(** A Defaults source that knows one key. *)
Definition fallback : @configify.Source imports := {|
  configify.String := fun k =>
    if (k =? "REGION")%string then ("eu"%string, true)
    else (EmptyString, false);
  configify.StringSlice := fun _ => (nil, false);
  configify.Int := fun k =>
    if (k =? "RETRIES")%string then (3, true) else (0, false);
  configify.Int8 := fun _ => (0, false);
  configify.Int16 := fun _ => (0, false);
  configify.Int32 := fun _ => (0, false);
  configify.Int64 := fun _ => (0, false);
  configify.Uint := fun _ => (0, false);
  configify.Uint8 := fun _ => (0, false);
  configify.Uint16 := fun _ => (0, false);
  configify.Uint32 := fun _ => (0, false);
  configify.Uint64 := fun _ => (0, false);
  configify.Float32 := fun _ => (0 : @float32 imports, false);
  configify.Float64 := fun _ => (0 : @float64 imports, false);
  configify.Bool := fun _ => (false, false);
  configify.Duration := fun _ => (0, false);
  configify.Time := fun _ => (0 : @time_Time imports, false);
|}.

Definition base : @configify.Options imports := {|
  configify.Context := Some {| configify.ctxDone := false |};
  configify.Address := "127.0.0.1:8500";
  configify.Username := "";
  configify.Password := "";
  configify.Namespace_ :=
    {| configify.Name := "FOO"; configify.Delimiter := "/" |};
  configify.RefreshInterval := 0;
  configify.Defaults := Some fallback;
|}.

Definition opts : @Options imports :=
  {| Options_ := base; Client_ := Some "127.0.0.1:8500"%string;
     RefreshInterval := 10 * second |}.

(** A source whose snapshot is [store] at index 7. *)
Definition loaded : @consulSource imports :=
  {| kv := "127.0.0.1:8500"%string; options := opts;
     values := Some (updatedValues store);
     lastIndex := 7%N; watcher := None |}.

(** The source [NewSource] leaves behind when the first listing fails. *)
Definition blank : @consulSource imports :=
  {| kv := "127.0.0.1:8500"%string; options := opts;
     values := None; lastIndex := 0%N; watcher := None |}.

Definition running (c : @consulSource imports) : @System imports :=
  {| source := c; loop := Select; done := false; calls := [] |}.

(** The loaded source with its first listing under way, with callback
    [1] registered, and both. *)
Definition listing : @System imports := run (running loaded) [TimerFire].

Definition watched : @System imports :=
  running (Watch (Some 1%nat) loaded).

Definition watched_listing : @System imports := run watched [TimerFire].

Definition newer : @Event imports := ListReturn (api.ListOk store' 9).

(** The same options with a context that is already cancelled, and with
    nothing to fall back on. *)
Definition cancelled_opts : @Options imports :=
  {| Options_ :=
       {| configify.Context := Some {| configify.ctxDone := true |};
          configify.Address := "127.0.0.1:8500";
          configify.Username := "";
          configify.Password := "";
          configify.Namespace_ :=
            {| configify.Name := "FOO"; configify.Delimiter := "/" |};
          configify.RefreshInterval := 0;
          configify.Defaults := None |};
     Client_ := Some "127.0.0.1:8500"%string;
     RefreshInterval := 50000000 |}.

(** A listing that names one key twice. *)
Definition twice : list api.KVPair :=
  [ pair "FOO/HTTP_HOST" "old.example.com";
    pair "FOO/HTTP_PORT" "80";
    pair "FOO/HTTP_HOST" " new.example.com " ].

(** The blank source after it has accepted [twice] at index 3. *)
Definition reloaded : @consulSource imports :=
  fst (refresh (api.ListOk twice 3) blank).

(** The loaded source after a callback was registered and a newer
    listing came in. *)
Definition notified : @System imports :=
  run (running loaded) [CallWatch (Some 1%nat); TimerFire; newer].

(** The options [Username(u)] and [Password(p)] in one edit. *)
Definition login (u p : string) : WithAddress.Option_ :=
  fun o =>
    {| configify.Context := configify.Context o;
       configify.Address := configify.Address o;
       configify.Username := u;
       configify.Password := p;
       configify.Namespace_ := configify.Namespace_ o;
       configify.RefreshInterval := configify.RefreshInterval o;
       configify.Defaults := configify.Defaults o |}.

(** Two polls that both fail, with a registration in between. *)
Definition failing : list (@Event imports) :=
  [TimerFire; ListReturn api.ListErr;
   CallWatch (Some 1%nat : option (@Callback imports));
   TimerFire; ListReturn api.ListErr].

(** Events that return no listing. *)
Definition quiet : list (@Event imports) :=
  [CallWatch (Some 1%nat : option (@Callback imports)); TimerFire; CtxCancel].

(** The functional options of the test suite's [SetupTest]:
    [Context(ctx)], [Address(a)], [Namespace("FOO")] and
    [NamespaceDelim("/")] in one edit. *)
Definition setup (a : string) : WithAddress.Option_ :=
  fun o =>
    {| configify.Context := Some {| configify.ctxDone := false |};
       configify.Address := a;
       configify.Username := configify.Username o;
       configify.Password := configify.Password o;
       configify.Namespace_ :=
         {| configify.Name := "FOO"; configify.Delimiter := "/" |};
       configify.RefreshInterval := configify.RefreshInterval o;
       configify.Defaults := configify.Defaults o |}.

End Fixture.

Example fixture_trim : Fixture.trimSpace "  a b   " = "a b"%string.
Proof. reflexivity. Qed.

Example fixture_lookup :
  @lookup Fixture.imports Fixture.loaded "HTTP_PORT" = ("1234"%string, true).
Proof. vm_compute. reflexivity. Qed.

Example fixture_int8 :
  @Int8 Fixture.imports Fixture.loaded "HTTP_PORT" = Some (-46, true).
Proof. vm_compute. reflexivity. Qed.

Example fixture_slice :
  @StringSlice Fixture.imports Fixture.loaded "LABELS"
  = Some (["a"; "b"; "c"; "d"]%string, true).
Proof. vm_compute. reflexivity. Qed.

(** * Properties *)

(** ** The integer conversions are two's-complement truncations *)

Lemma truncU_mod w x : 0 <= w -> Go.truncU w x = x mod 2 ^ w.
Proof. intros Hw. unfold Go.truncU. now apply Z.land_ones. Qed.

Lemma truncU_range w x : 0 <= w -> 0 <= Go.truncU w x < 2 ^ w.
Proof.
  intros Hw. rewrite truncU_mod by assumption.
  apply Z.mod_pos_bound. apply Z.pow_pos_nonneg; lia.
Qed.

Lemma truncU_bits w x i : 0 <= i < w -> Z.testbit (Go.truncU w x) i = Z.testbit x i.
Proof.
  intros Hi. unfold Go.truncU. rewrite Z.land_spec, Z.testbit_ones_nonneg by lia.
  replace (i <? w) with true by (symmetry; apply Z.ltb_lt; lia).
  apply andb_true_r.
Qed.

Lemma pow2_split w : 0 < w -> 2 ^ w = 2 * 2 ^ (w - 1).
Proof.
  intros Hw. replace w with (Z.succ (w - 1)) at 1 by lia.
  apply Z.pow_succ_r. lia.
Qed.

Lemma sign_bit w x :
  0 < w -> Z.testbit x (w - 1) = (2 ^ (w - 1) <=? Go.truncU w x).
Proof.
  intros Hw.
  rewrite <- (truncU_bits w x (w - 1)) by lia.
  pose proof (truncU_range w x ltac:(lia)) as Hr.
  pose proof (pow2_split w Hw) as Hp.
  assert (Hh : 0 < 2 ^ (w - 1)) by (apply Z.pow_pos_nonneg; lia).
  set (u := Go.truncU w x) in *.
  rewrite Z.testbit_eqb by lia.
  destruct (Z.leb_spec (2 ^ (w - 1)) u) as [Hge | Hlt].
  - assert (u / 2 ^ (w - 1) = 1) as ->; [| reflexivity].
    symmetry. apply (Z.div_unique u (2 ^ (w - 1)) 1 (u - 2 ^ (w - 1))); lia.
  - rewrite Z.div_small by lia. reflexivity.
Qed.

Lemma truncS_mod w x :
  0 < w -> Go.truncS w x = (x + 2 ^ (w - 1)) mod 2 ^ w - 2 ^ (w - 1).
Proof.
  intros Hw. unfold Go.truncS. rewrite sign_bit by assumption.
  pose proof (truncU_range w x ltac:(lia)) as Hr.
  pose proof (pow2_split w Hw) as Hp.
  assert (Hh : 0 < 2 ^ (w - 1)) by (apply Z.pow_pos_nonneg; lia).
  assert (Hx : x = 2 ^ w * (x / 2 ^ w) + Go.truncU w x).
  { rewrite truncU_mod by lia. apply Z.div_mod. lia. }
  set (u := Go.truncU w x) in *. set (q := x / 2 ^ w) in *.
  destruct (Z.leb_spec (2 ^ (w - 1)) u) as [Hge | Hlt].
  - assert ((x + 2 ^ (w - 1)) mod 2 ^ w = u - 2 ^ (w - 1)) as ->; [| lia].
    symmetry. apply (Z.mod_unique _ _ (q + 1)); lia.
  - assert ((x + 2 ^ (w - 1)) mod 2 ^ w = u + 2 ^ (w - 1)) as ->; [| lia].
    symmetry. apply (Z.mod_unique _ _ q); lia.
Qed.

Lemma truncS_range w x : 0 < w -> - 2 ^ (w - 1) <= Go.truncS w x < 2 ^ (w - 1).
Proof.
  intros Hw. rewrite truncS_mod by assumption.
  pose proof (pow2_split w Hw) as Hp.
  assert (Hh : 0 < 2 ^ (w - 1)) by (apply Z.pow_pos_nonneg; lia).
  pose proof (Z.mod_pos_bound (x + 2 ^ (w - 1)) (2 ^ w) ltac:(lia)). lia.
Qed.

Lemma truncS_congr w x : 0 < w -> (Go.truncS w x - x) mod 2 ^ w = 0.
Proof.
  intros Hw. unfold Go.truncS.
  assert (Hh : 0 < 2 ^ w) by (apply Z.pow_pos_nonneg; lia).
  assert (Hx : x = 2 ^ w * (x / 2 ^ w) + Go.truncU w x).
  { rewrite truncU_mod by lia. apply Z.div_mod. lia. }
  set (u := Go.truncU w x) in *. set (q := x / 2 ^ w) in *.
  destruct (Z.testbit x (w - 1)).
  - replace (u - 2 ^ w - x) with ((- q - 1) * 2 ^ w) by lia. apply Z.mod_mul. lia.
  - replace (u - x) with ((- q) * 2 ^ w) by lia. apply Z.mod_mul. lia.
Qed.

Lemma truncS_bits w x i : 0 <= i < w -> Z.testbit (Go.truncS w x) i = Z.testbit x i.
Proof.
  intros Hi. unfold Go.truncS. destruct (Z.testbit x (w - 1)).
  - rewrite <- (truncU_bits w x i) by lia.
    replace (Go.truncU w x - 2 ^ w) with (Go.truncU w x + (-1) * 2 ^ w) by lia.
    rewrite !Z.testbit_eqb by lia.
    replace (2 ^ w) with (2 ^ i * 2 ^ (w - i)).
    2:{ rewrite <- Z.pow_add_r by lia. f_equal. lia. }
    assert (0 < 2 ^ i) by (apply Z.pow_pos_nonneg; lia).
    rewrite Z.mul_assoc, (Z.mul_comm _ (2 ^ i)), <- Z.mul_assoc.
    rewrite (Z.mul_comm (2 ^ i)), Z.div_add by lia.
    replace (2 ^ (w - i)) with (2 * 2 ^ (w - i - 1)).
    2:{ symmetry. replace (w - i) with (Z.succ (w - i - 1)) at 1 by lia. apply Z.pow_succ_r. lia. }
    replace (-1 * (2 * 2 ^ (w - i - 1))) with ((- 2 ^ (w - i - 1)) * 2) by lia.
    rewrite Z.mod_add by lia. reflexivity.
  - apply truncU_bits. lia.
Qed.

(** A value that fits the target width passes through unchanged. *)
Lemma truncU_fits w x : 0 <= w -> 0 <= x < 2 ^ w -> Go.truncU w x = x.
Proof. intros Hw Hx. rewrite truncU_mod by assumption. now apply Z.mod_small. Qed.

Lemma truncS_fits w x :
  0 < w -> - 2 ^ (w - 1) <= x < 2 ^ (w - 1) -> Go.truncS w x = x.
Proof.
  intros Hw Hx. rewrite truncS_mod by assumption.
  pose proof (pow2_split w Hw) as Hp.
  rewrite Z.mod_small by lia. lia.
Qed.

Lemma truncS_zero w : Go.truncS w 0 = 0.
Proof. unfold Go.truncS, Go.truncU. rewrite Z.testbit_0_l, Z.land_0_l. reflexivity. Qed.
Lemma truncU_zero w : Go.truncU w 0 = 0.
Proof. unfold Go.truncU. apply Z.land_0_l. Qed.

(** ** The typed accessors *)

Section Accessors.
Context {E : Extern}.

Lemma lookup_present (c : consulSource) (key raw : string) :
  mapGet (values c) (qualify c key) = Some raw ->
  lookup c key = (TrimSpace raw, true).
Proof. intros H. unfold lookup. now rewrite H. Qed.

Lemma lookup_absent (c : consulSource) (key : string) :
  mapGet (values c) (qualify c key) = None ->
  lookup c key = (EmptyString, false).
Proof. intros H. unfold lookup. now rewrite H. Qed.

(** Every value of the map built from a listing is the byte string of
    one of its pairs, or was there before. *)
Lemma fill_origin (pairs : list api.KVPair) (m : gmap string string)
    (k raw : string) :
  fold_left
    (fun m pair => <[api.Key pair := Go.string_of_bytes (api.Value pair)]> m)
    pairs m !! k = Some raw ->
  m !! k = Some raw \/
  exists p, In p pairs /\ api.Key p = k /\
            raw = Go.string_of_bytes (api.Value p).
Proof.
  revert m. induction pairs as [| p pairs IH]; intros m H; simpl in *.
  - now left.
  - destruct (IH _ H) as [Hm | (q & Hin & Hk & Hv)].
    + destruct (decide (api.Key p = k)) as [Heq | Hne].
      * right. exists p. rewrite Heq, lookup_insert_eq in Hm.
        injection Hm as <-. auto.
      * rewrite lookup_insert_ne in Hm by assumption. now left.
    + right. exists q. auto.
Qed.

Lemma updatedValues_origin (pairs : list api.KVPair) (k raw : string) :
  updatedValues pairs !! k = Some raw ->
  exists p, In p pairs /\ api.Key p = k /\
            raw = Go.string_of_bytes (api.Value p).
Proof.
  intros H. destruct (fill_origin _ _ _ _ H) as [Hm | Hp]; [| exact Hp].
  rewrite lookup_empty in Hm. discriminate.
Qed.

(** The last pair listed for a key is the one the map keeps. *)
Lemma fill_last (after : list api.KVPair) (m : gmap string string)
    (k v : string) :
  Forall (fun q => api.Key q <> k) after ->
  m !! k = Some v ->
  fold_left
    (fun m pair => <[api.Key pair := Go.string_of_bytes (api.Value pair)]> m)
    after m !! k = Some v.
Proof.
  revert m. induction after as [| q after IH]; intros m Hall Hm; simpl.
  - exact Hm.
  - apply Forall_cons in Hall as [Hq Hall]. apply IH; [exact Hall |].
    now rewrite lookup_insert_ne.
Qed.

Lemma updatedValues_last (before after : list api.KVPair) (p : api.KVPair) :
  Forall (fun q => api.Key q <> api.Key p) after ->
  updatedValues (before ++ p :: after) !! api.Key p
  = Some (Go.string_of_bytes (api.Value p)).
Proof.
  intros Hall. unfold updatedValues. rewrite fold_left_app. simpl.
  apply fill_last; [exact Hall |]. apply lookup_insert_eq.
Qed.

Lemma refresh_newer (c : consulSource) (pairs : list api.KVPair) (idx : N) :
  (lastIndex c < idx)%N ->
  fst (refresh (api.ListOk pairs idx) c)
  = {| kv := kv c; options := options c;
       values := Some (updatedValues pairs);
       lastIndex := idx; watcher := watcher c |}.
Proof.
  intros Hlt. unfold refresh.
  destruct (N.leb_spec idx (lastIndex c)) as [Hle | _]; [lia |].
  simpl. now destruct (watcher c).
Qed.

(** The accessors follow the documented contract whenever the key is in
    the snapshot and its text parses. *)
Lemma get_hit (k : Kind) (c : consulSource) (key raw : string)
    (v : GoType k) :
  mapGet (values c) (qualify c key) = Some raw ->
  parse k (TrimSpace raw) = Some v ->
  get k c key = Some (v, true).
Proof.
  intros Hin Hp. pose proof (lookup_present _ _ _ Hin) as Hl.
  destruct k; simpl in *;
    unfold String, StringSlice, Int, Int8, Int16, Int32, Int64,
           Uint, Uint8, Uint16, Uint32, Uint64,
           Float32, Float64, Bool, Duration, Time;
    rewrite Hl; simpl;
    unfold found in Hp;
    try (injection Hp as <-; reflexivity);
    match goal with
    | |- context [StringToSlice ?s] => destruct (StringToSlice s) as [x [|]]
    | |- context [StringToInt64 ?s] => destruct (StringToInt64 s) as [x [|]]
    | |- context [StringToUint64 ?s] => destruct (StringToUint64 s) as [x [|]]
    | |- context [StringToFloat64 ?s] =>
        destruct (StringToFloat64 s) as [x [|]]
    | |- context [StringToBool ?s] => destruct (StringToBool s) as [x [|]]
    | |- context [StringToDuration ?s] =>
        destruct (StringToDuration s) as [x [|]]
    | |- context [StringToTime ?s] => destruct (StringToTime s) as [x [|]]
    end; simpl in Hp; try discriminate; injection Hp as <-; reflexivity.
Qed.

(** On a key that is in the snapshot, the accessor never reads the
    Defaults: the answer is there, and it is built from the coercion of
    the trimmed text alone. *)
Lemma get_miss_parse (k : Kind) (c : consulSource) (key raw : string) :
  mapGet (values c) (qualify c key) = Some raw ->
  parse k (TrimSpace raw) = None ->
  exists v, get k c key = Some (v, false) /\
            (ZeroOnFailure -> v = zero k).
Proof.
  intros Hin Hp. pose proof (lookup_present _ _ _ Hin) as Hl.
  destruct k; simpl in *;
    unfold String, StringSlice, Int, Int8, Int16, Int32, Int64,
           Uint, Uint8, Uint16, Uint32, Uint64,
           Float32, Float64, Bool, Duration, Time;
    rewrite Hl; simpl;
    unfold found in Hp;
    try discriminate;
    match goal with
    | |- context [StringToSlice ?s] =>
        pose proof (fun Z : ZeroOnFailure => zf_slice Z s) as Hz;
        destruct (StringToSlice s) as [x [|]]
    | |- context [StringToInt64 ?s] =>
        pose proof (fun Z : ZeroOnFailure => zf_int64 Z s) as Hz;
        destruct (StringToInt64 s) as [x [|]]
    | |- context [StringToUint64 ?s] =>
        pose proof (fun Z : ZeroOnFailure => zf_uint64 Z s) as Hz;
        destruct (StringToUint64 s) as [x [|]]
    | |- context [StringToFloat64 ?s] =>
        pose proof (fun Z : ZeroOnFailure => zf_float64 Z s) as Hz;
        destruct (StringToFloat64 s) as [x [|]]
    | |- context [StringToBool ?s] =>
        pose proof (fun Z : ZeroOnFailure => zf_bool Z s) as Hz;
        destruct (StringToBool s) as [x [|]]
    | |- context [StringToDuration ?s] =>
        pose proof (fun Z : ZeroOnFailure => zf_duration Z s) as Hz;
        destruct (StringToDuration s) as [x [|]]
    | |- context [StringToTime ?s] =>
        pose proof (fun Z : ZeroOnFailure => zf_time Z s) as Hz;
        destruct (StringToTime s) as [x [|]]
    end; simpl in Hp; try discriminate;
    (eexists; split; [reflexivity |]);
    intros Z; simpl in Hz; rewrite (Hz Z eq_refl);
    pose proof (zf_float32 Z);
    auto using truncS_zero, truncU_zero.
Qed.

Lemma get_miss (k : Kind) (c : consulSource) (key : string) :
  mapGet (values c) (qualify c key) = None ->
  get k c key =
  match Defaults_of c with
  | Some d => Some (sourceGet k d key)
  | None => None
  end.
Proof.
  intros Hout. pose proof (lookup_absent _ _ Hout) as Hl.
  destruct k; simpl;
    unfold String, StringSlice, Int, Int8, Int16, Int32, Int64,
           Uint, Uint8, Uint16, Uint32, Uint64,
           Float32, Float64, Bool, Duration, Time;
    rewrite Hl; reflexivity.
Qed.

Lemma Empty_zero (k : Kind) (key : string) :
  sourceGet k configify.Empty key = (zero k, false).
Proof. destruct k; reflexivity. Qed.

End Accessors.

Section AccessorContract.
Context {E : Extern}.

(** C1. For a key whose qualified form is in the current snapshot with a
    raw value whose trimmed text parses as the requested kind, the
    accessor of that kind returns the parsed value with [true], and the
    trimming is done by [lookup].  [refresh] stores the raw value
    untrimmed: a snapshot it has built holds only bytes of listed pairs,
    and whenever it applies a listing whose last pair for the key carries
    that raw value, the new snapshot holds the value as listed and the
    accessor answers from it. *)
Theorem get_present_parsed (k : Kind) (c : consulSource) (key raw : string)
    (v : GoType k) :
  mapGet (values c) (qualify c key) = Some raw ->
  parse k (TrimSpace raw) = Some v ->
  get k c key = Some (v, true) /\
  lookup c key = (TrimSpace raw, true) /\
  (forall c0 pairs idx,
      (lastIndex c0 < idx)%N ->
      c = fst (refresh (api.ListOk pairs idx) c0) ->
      exists p, In p pairs /\ api.Key p = qualify c key /\
                raw = Go.string_of_bytes (api.Value p)) /\
  (forall c0 before p after idx,
      (lastIndex c0 < idx)%N ->
      api.Key p = qualify c0 key ->
      Forall (fun q => api.Key q <> api.Key p) after ->
      Go.string_of_bytes (api.Value p) = raw ->
      mapGet (values (fst (refresh (api.ListOk (before ++ p :: after) idx)
                                   c0)))
             (qualify c0 key) = Some raw /\
      lookup (fst (refresh (api.ListOk (before ++ p :: after) idx) c0)) key
      = (TrimSpace raw, true) /\
      get k (fst (refresh (api.ListOk (before ++ p :: after) idx) c0)) key
      = Some (v, true)).
Proof.
  intros Hin Hp. split; [| split; [| split]].
  - eapply get_hit; eassumption.
  - now apply lookup_present.
  - intros c0 pairs idx Hlt ->. rewrite refresh_newer in Hin by assumption.
    simpl in Hin. apply updatedValues_origin in Hin.
    destruct Hin as (p & Hp1 & Hp2 & Hp3). exists p.
    rewrite refresh_newer by assumption. auto.
  - intros c0 before p after idx Hlt Hk Hall Hraw.
    rewrite refresh_newer by assumption.
    set (c' := {| kv := kv c0 |}).
    assert (Hin' : mapGet (values c') (qualify c' key) = Some raw).
    { change (qualify c' key) with (qualify c0 key).
      rewrite <- Hk, <- Hraw. now apply updatedValues_last. }
    split; [exact Hin' | split].
    + now apply lookup_present.
    + eapply get_hit; eassumption.
Qed.

(** C2. For a key whose qualified form is not in the current snapshot,
    the accessor of every kind returns the answer of the same accessor
    of the configured Defaults source, value and found flag alike; with
    the empty source as Defaults that is the zero value and [false]. *)
Theorem get_absent_defaults (k : Kind) (c : consulSource) (key : string)
    (d : configify.Source) :
  mapGet (values c) (qualify c key) = None ->
  Defaults_of c = Some d ->
  get k c key = Some (sourceGet k d key) /\
  (d = configify.Empty -> get k c key = Some (zero k, false)).
Proof.
  intros Hout Hd. rewrite (get_miss k c key Hout), Hd. split; [reflexivity |].
  intros ->. now rewrite Empty_zero.
Qed.

(** C3. For a key whose qualified form is in the current snapshot but
    whose trimmed raw value does not parse as the requested kind, the
    accessor returns the zero value with [false], whatever the Defaults
    source is, a nil one included: the Defaults are not consulted.  The
    zero value is the one the coercion library hands back on failure. *)
Theorem get_present_unparseable (k : Kind) (c : consulSource)
    (key raw : string) :
  ZeroOnFailure ->
  mapGet (values c) (qualify c key) = Some raw ->
  parse k (TrimSpace raw) = None ->
  get k c key = Some (zero k, false) /\
  (forall d, get k (withDefaults d c) key = Some (zero k, false)).
Proof.
  intros Z Hin Hp. split.
  - destruct (get_miss_parse k c key raw Hin Hp) as (v & Hv & Hz).
    now rewrite Hv, (Hz Z).
  - intros d.
    destruct (get_miss_parse k (withDefaults d c) key raw Hin Hp)
      as (v & Hv & Hz).
    now rewrite Hv, (Hz Z).
Qed.

(** C4. Each narrow integer accessor coerces the trimmed text at 64 bits
    and then converts to its own width; the conversion keeps the low
    bits (for a signed target, read as two's complement) and never
    fails.  A value of 1234 read as [int8] is -46 and as [uint8] is
    210, both found. *)
Theorem narrow_integers_truncate (c : consulSource) (key raw : string)
    (n m : Z) (ok ok' : bool) :
  mapGet (values c) (qualify c key) = Some raw ->
  StringToInt64 (TrimSpace raw) = (n, ok) ->
  StringToUint64 (TrimSpace raw) = (m, ok') ->
  (Int8 c key = Some (Go.truncS 8 n, ok) /\
   Int16 c key = Some (Go.truncS 16 n, ok) /\
   Int32 c key = Some (Go.truncS 32 n, ok) /\
   Int c key = Some (Go.truncS IntSize n, ok) /\
   Uint8 c key = Some (Go.truncU 8 m, ok') /\
   Uint16 c key = Some (Go.truncU 16 m, ok') /\
   Uint32 c key = Some (Go.truncU 32 m, ok') /\
   Uint c key = Some (Go.truncU IntSize m, ok')) /\
  (forall w, 0 < w ->
     Go.truncU w m = m mod 2 ^ w /\
     Go.truncS w n = (n + 2 ^ (w - 1)) mod 2 ^ w - 2 ^ (w - 1) /\
     forall i, 0 <= i < w ->
       Z.testbit (Go.truncU w m) i = Z.testbit m i /\
       Z.testbit (Go.truncS w n) i = Z.testbit n i) /\
  (n = 1234 -> ok = true -> Int8 c key = Some (-46, true)) /\
  (m = 1234 -> ok' = true -> Uint8 c key = Some (210, true)).
Proof.
  intros Hin Hn Hm. pose proof (lookup_present _ _ _ Hin) as Hl.
  assert (H8 : Int8 c key = Some (Go.truncS 8 n, ok))
    by (unfold Int8; rewrite Hl; simpl; now rewrite Hn).
  assert (U8 : Uint8 c key = Some (Go.truncU 8 m, ok'))
    by (unfold Uint8; rewrite Hl; simpl; now rewrite Hm).
  repeat split;
    try (unfold Int16, Int32, Int; rewrite Hl; simpl; now rewrite Hn);
    try (unfold Uint16, Uint32, Uint; rewrite Hl; simpl; now rewrite Hm);
    try assumption.
  - apply truncU_mod. lia.
  - now apply truncS_mod.
  - now apply truncU_bits.
  - now apply truncS_bits.
  - intros -> ->. exact H8.
  - intros -> ->. exact U8.
Qed.

End AccessorContract.

(** ** The refresh cycle, the watch slot and cancellation *)

Section Lifecycle.
Context {E : Extern}.

Lemma run_app (s : System) (es1 es2 : list Event) :
  run s (es1 ++ es2) = run (run s es1) es2.
Proof. unfold run. apply fold_left_app. Qed.

Lemma refresh_error (c : consulSource) : refresh api.ListErr c = (c, []).
Proof. reflexivity. Qed.

Lemma refresh_stale (c : consulSource) (pairs : list api.KVPair) (idx : N) :
  (idx <= lastIndex c)%N -> refresh (api.ListOk pairs idx) c = (c, []).
Proof.
  intros Hle. unfold refresh.
  destruct (N.leb_spec idx (lastIndex c)) as [_ | Hlt]; [reflexivity | lia].
Qed.

Lemma refresh_swap (c : consulSource) (pairs : list api.KVPair) (idx : N) :
  (lastIndex c < idx)%N ->
  let c' := {| kv := kv c; options := options c;
               values := Some (updatedValues pairs);
               lastIndex := idx; watcher := watcher c |} in
  refresh (api.ListOk pairs idx) c
  = (c', match watcher c with Some w => [(w, c')] | None => [] end).
Proof.
  intros Hlt. unfold refresh.
  destruct (N.leb_spec idx (lastIndex c)) as [Hle | _]; [lia |].
  simpl. now destruct (watcher c).
Qed.

(** What [refresh] leaves alone, and which way the index moves. *)
Lemma refresh_keeps (r : api.ListResult) (c : consulSource) :
  options (fst (refresh r c)) = options c /\
  watcher (fst (refresh r c)) = watcher c /\
  (lastIndex c <= lastIndex (fst (refresh r c)))%N.
Proof.
  destruct r as [| pairs idx]; simpl; [repeat split; lia |].
  destruct (N.leb_spec idx (lastIndex c)) as [Hle | Hlt]; simpl.
  - repeat split; lia.
  - destruct (watcher c); simpl; repeat split; lia.
Qed.

Lemma refresh_quiet (r : api.ListResult) (c : consulSource) :
  watcher c = None -> snd (refresh r c) = [].
Proof.
  intros Hw. destruct r as [| pairs idx]; simpl; [reflexivity |].
  destruct (idx <=? lastIndex c)%N; simpl; [reflexivity |].
  now rewrite Hw.
Qed.

Lemma step_lastIndex (s : System) (e : Event) :
  (lastIndex (source s) <= lastIndex (source (step s e)))%N.
Proof.
  destruct e as [| | r | cb]; simpl; try lia.
  destruct (loop s); try lia.
  pose proof (refresh_keeps r (source s)) as (_ & _ & Hle).
  destruct (refresh r (source s)) as [c made]. exact Hle.
Qed.

Lemma run_lastIndex (s : System) (es : list Event) :
  (lastIndex (source s) <= lastIndex (source (run s es)))%N.
Proof.
  revert s. induction es as [| e es IH]; intros s; simpl; [lia |].
  pose proof (step_lastIndex s e). pose proof (IH (step s e)).
  unfold run in *. lia.
Qed.

(** Only a returning listing makes calls, and only inside [refresh]. *)
Lemma step_calls_other (s : System) (e : Event) :
  loop s <> Listing \/ (forall r, e <> ListReturn r) ->
  calls (step s e) = calls s.
Proof.
  intros H. destruct e as [| | r | cb]; simpl; try reflexivity.
  destruct (loop s) eqn:Hl; try reflexivity.
  destruct H as [H | H]; [congruence | now destruct (H r)].
Qed.

(** The accessors read the snapshot and the options, nothing else. *)
Lemma get_same_snapshot (k : Kind) (c c' : consulSource) (key : string) :
  values c = values c' -> options c = options c' ->
  get k c key = get k c' key.
Proof.
  destruct c, c'; simpl. intros -> ->. destruct k; reflexivity.
Qed.

(** Once the goroutine has returned nothing touches the snapshot. *)
Lemma step_Returned (s : System) (e : Event) :
  loop s = Returned ->
  loop (step s e) = Returned /\
  values (source (step s e)) = values (source s) /\
  options (source (step s e)) = options (source s) /\
  lastIndex (source (step s e)) = lastIndex (source s) /\
  calls (step s e) = calls s.
Proof.
  intros H. destruct e; simpl; rewrite ?H; auto.
Qed.

Lemma run_Returned (s : System) (es : list Event) :
  loop s = Returned ->
  loop (run s es) = Returned /\
  values (source (run s es)) = values (source s) /\
  options (source (run s es)) = options (source s) /\
  lastIndex (source (run s es)) = lastIndex (source s) /\
  calls (run s es) = calls s.
Proof.
  revert s. induction es as [| e es IH]; intros s H; simpl; [auto |].
  destruct (step_Returned s e H) as (H1 & H2 & H3 & H4 & H5).
  destruct (IH (step s e) H1) as (I1 & I2 & I3 & I4 & I5).
  unfold run in *. repeat split; congruence.
Qed.

(** While a listing is in flight, everything but its return leaves the
    loop where it is and the snapshot as it was. *)
Lemma run_in_flight (s : System) (es : list Event) :
  loop s = Listing ->
  Forall (fun e => forall r, e <> ListReturn r) es ->
  loop (run s es) = Listing /\
  (done s = true -> done (run s es) = true) /\
  values (source (run s es)) = values (source s) /\
  options (source (run s es)) = options (source s) /\
  lastIndex (source (run s es)) = lastIndex (source s).
Proof.
  revert s. induction es as [| e es IH]; intros s Hl Hall; simpl; [auto |].
  apply Forall_cons in Hall as [He Hall].
  assert (Hs : loop (step s e) = Listing /\
               (done s = true -> done (step s e) = true) /\
               values (source (step s e)) = values (source s) /\
               options (source (step s e)) = options (source s) /\
               lastIndex (source (step s e)) = lastIndex (source s)).
  { destruct e as [| | r | cb]; simpl; rewrite ?Hl; auto.
    now destruct (He r). }
  destruct Hs as (S1 & S2 & S3 & S4 & S5).
  destruct (IH (step s e) S1 Hall) as (I1 & I2 & I3 & I4 & I5).
  unfold run in *. repeat split; try congruence. auto.
Qed.

(** An empty slot stays empty until somebody registers a callback. *)
Lemma run_unwatched (s : System) (es : list Event) :
  watcher (source s) = None ->
  Forall (fun e => forall w, e <> CallWatch (Some w)) es ->
  watcher (source (run s es)) = None /\ calls (run s es) = calls s.
Proof.
  revert s. induction es as [| e es IH]; intros s Hw Hall; simpl; [auto |].
  apply Forall_cons in Hall as [He Hall].
  assert (Hs : watcher (source (step s e)) = None /\
               calls (step s e) = calls s).
  { destruct e as [| | r | [w |]]; simpl; auto.
    - destruct (loop s); auto.
      pose proof (refresh_keeps r (source s)) as (_ & Hk & _).
      pose proof (refresh_quiet r (source s) Hw) as Hq.
      destruct (refresh r (source s)) as [c made]; simpl in *.
      subst made. rewrite app_nil_r. split; congruence.
    - now destruct (He w). }
  destruct Hs as [S1 S2]. destruct (IH (step s e) S1 Hall) as [I1 I2].
  unfold run in *. split; congruence.
Qed.

(** As long as no listing succeeds, snapshot, index and options stay as
    they are. *)
Lemma run_no_listing (s : System) (es : list Event) :
  Forall (fun e => forall pairs idx, e <> ListReturn (api.ListOk pairs idx))
         es ->
  values (source (run s es)) = values (source s) /\
  lastIndex (source (run s es)) = lastIndex (source s) /\
  options (source (run s es)) = options (source s).
Proof.
  revert s. induction es as [| e es IH]; intros s Hall; [auto |].
  apply Forall_cons in Hall as [He Hall].
  destruct (IH (step s e) Hall) as (I1 & I2 & I3).
  assert (Hs : values (source (step s e)) = values (source s) /\
               lastIndex (source (step s e)) = lastIndex (source s) /\
               options (source (step s e)) = options (source s)).
  { destruct e as [| | [| pairs idx] | cb]; cbn; auto.
    - destruct (loop s); auto.
    - now destruct (He pairs idx). }
  destruct Hs as (S1 & S2 & S3).
  change (run s (e :: es)) with (run (step s e) es).
  repeat split; congruence.
Qed.

(** Functional options that leave the Defaults alone leave them as the
    constructor set them. *)
Lemma apply_keeps_Defaults (opts : list WithAddress.Option_)
    (d : configify.Options) :
  (forall option o, In option opts ->
     configify.Defaults (option o) = configify.Defaults o) ->
  configify.Defaults (WithAddress.apply opts d) = configify.Defaults d.
Proof.
  revert d. induction opts as [| option opts IH]; intros d H; [reflexivity |].
  cbn. fold (WithAddress.apply opts (option d)).
  rewrite IH by (intros; apply H; now right).
  apply H. now left.
Qed.

End Lifecycle.

Section LifecycleContract.
Context {E : Extern}.

(** C5. A listing whose index is not above the applied one changes
    nothing: [refresh] returns the source as it was and calls nobody, so
    the step of the loop leaves snapshot, index and call log alone; and
    over any run of the source the applied index never goes down. *)
Theorem stale_refresh_noop (c : consulSource) (pairs : list api.KVPair)
    (idx : N) :
  (idx <= lastIndex c)%N ->
  refresh (api.ListOk pairs idx) c = (c, []) /\
  (forall s, loop s = Listing -> source s = c ->
     source (step s (ListReturn (api.ListOk pairs idx))) = c /\
     calls (step s (ListReturn (api.ListOk pairs idx))) = calls s) /\
  (forall s es, (lastIndex (source s) <= lastIndex (source (run s es)))%N).
Proof.
  intros Hle. pose proof (refresh_stale c pairs idx Hle) as Hr.
  split; [exact Hr | split].
  - intros s Hl Hs. cbn [step]. rewrite Hl, Hs, Hr. cbn.
    now rewrite app_nil_r.
  - apply run_lastIndex.
Qed.

(** C6. When the listing fails, [refresh] gives the source back
    untouched and calls nobody; the loop, unless cancelled meanwhile,
    is back in its [select], and only the next timer tick starts
    another listing. *)
Theorem failed_refresh_silent (s : System) :
  loop s = Listing ->
  refresh api.ListErr (source s) = (source s, []) /\
  source (step s (ListReturn api.ListErr)) = source s /\
  calls (step s (ListReturn api.ListErr)) = calls s /\
  (done s = false ->
     loop (step s (ListReturn api.ListErr)) = Select /\
     loop (step (step s (ListReturn api.ListErr)) TimerFire) = Listing /\
     forall e, e <> TimerFire ->
       loop (step (step s (ListReturn api.ListErr)) e) <> Listing).
Proof.
  intros Hl. split; [reflexivity |]. cbn [step]. rewrite Hl. cbn.
  rewrite app_nil_r. split; [reflexivity | split; [reflexivity |]].
  intros Hd. rewrite Hd. cbn. split; [reflexivity | split; [reflexivity |]].
  intros e He. destruct e; cbn; try discriminate. now destruct He.
Qed.

(** C7 (amended). Neither constructor calls a callback or leaves one
    registered.  Afterwards a returning listing calls the callback
    registered at that moment exactly once, with the source that
    already holds the new snapshot, when its index is above the
    applied one; it calls nobody otherwise, and no other event calls
    anybody. *)
Theorem watch_fires_per_swap :
  (forall opts first s,
      NewSource opts first = inr s ->
      calls s = [] /\ watcher (source s) = None) /\
  (forall opts first s,
      WithAddress.NewSource opts first = inr s ->
      calls s = [] /\ watcher (source s) = None) /\
  (forall s pairs idx,
      loop s = Listing ->
      let s' := step s (ListReturn (api.ListOk pairs idx)) in
      if (lastIndex (source s) <? idx)%N then
        values (source s') = Some (updatedValues pairs) /\
        lastIndex (source s') = idx /\
        calls s' = calls s ++ match watcher (source s) with
                              | Some w => [(w, source s')]
                              | None => []
                              end
      else calls s' = calls s) /\
  (forall s e,
      loop s <> Listing \/ (forall pairs idx, e <> ListReturn (api.ListOk pairs idx)) ->
      calls (step s e) = calls s).
Proof.
  split; [| split; [| split]].
  - intros opts first s. unfold NewSource.
    destruct (configify.Context _) as [ctx |]; [| discriminate].
    destruct (Client_ opts) as [client |]; [| discriminate].
    match goal with
    | |- context [refresh first ?src] =>
        pose proof (refresh_keeps first src) as (_ & Hw & _);
        pose proof (refresh_quiet first src eq_refl) as Hq;
        destruct (refresh first src) as [c made]
    end.
    simpl in *. intros [= <-]. simpl. auto.
  - intros opts first s. unfold WithAddress.NewSource.
    destruct (configify.Context _) as [ctx |]; [| discriminate].
    destruct (negb _); [discriminate |].
    destruct (NewClient _) as [client |]; [| discriminate].
    match goal with
    | |- context [refresh first ?src] =>
        pose proof (refresh_keeps first src) as (_ & Hw & _);
        pose proof (refresh_quiet first src eq_refl) as Hq;
        destruct (refresh first src) as [c made]
    end.
    simpl in *. intros [= <-]. simpl. auto.
  - intros s pairs idx Hl. cbn [step]. rewrite Hl.
    destruct (N.ltb_spec (lastIndex (source s)) idx) as [Hlt | Hge].
    + rewrite (refresh_swap _ pairs idx Hlt). cbn.
      destruct (watcher (source s)); auto.
    + rewrite (refresh_stale _ pairs idx Hge). cbn. now rewrite app_nil_r.
  - intros s e [H | H].
    + apply step_calls_other. now left.
    + destruct e as [| | [| pairs idx] | cb]; cbn; try reflexivity.
      * destruct (loop s); cbn; try reflexivity. now rewrite app_nil_r.
      * now destruct (H pairs idx).
Qed.

(** C8 (amended). Closing [Done()] makes the goroutine return at once
    when it is parked in its [select], and at the end of the listing it
    is waiting for otherwise: that one listing may still replace the
    snapshot.  From the moment the goroutine has returned, no event
    changes the snapshot, the index or the call log, and every accessor
    keeps answering as it did then. *)
Theorem cancel_stops_refreshing (s : System) :
  done (step s CtxCancel) = true /\
  source (step s CtxCancel) = source s /\
  (loop s <> Listing ->
     loop (step s CtxCancel) = Returned) /\
  (loop s = Listing ->
     forall es1 r,
       Forall (fun e => forall r', e <> ListReturn r') es1 ->
       values (source (run (step s CtxCancel) es1)) = values (source s) /\
       loop (step (run (step s CtxCancel) es1) (ListReturn r)) = Returned) /\
  (forall t, loop t = Returned ->
     forall es k key,
       loop (run t es) = Returned /\
       values (source (run t es)) = values (source t) /\
       lastIndex (source (run t es)) = lastIndex (source t) /\
       calls (run t es) = calls t /\
       get k (source (run t es)) key = get k (source t) key).
Proof.
  split; [reflexivity | split; [reflexivity | split; [| split]]].
  - intros Hl. cbn. destruct (loop s); congruence.
  - intros Hl es1 r Hall.
    assert (Hl' : loop (step s CtxCancel) = Listing) by (cbn; now rewrite Hl).
    destruct (run_in_flight (step s CtxCancel) es1 Hl' Hall)
      as (R1 & R2 & R3 & _ & _).
    split; [exact R3 |].
    generalize dependent (run (step s CtxCancel) es1). intros t T1 T2 _.
    cbn [step]. rewrite T1, (T2 eq_refl).
    now destruct (refresh r _).
  - intros t Hl es k key.
    destruct (run_Returned t es Hl) as (R1 & R2 & R3 & R4 & R5).
    repeat split; try assumption.
    now apply get_same_snapshot.
Qed.

(** C9. The constructor that takes an address fails exactly when the
    context is missing, the address is empty, or no client can be built
    for the configuration.  What the first listing returns plays no part:
    when it fails the source is still created, without a snapshot, and
    until a listing succeeds every accessor is answered by the Defaults
    source of the options, which is the empty source (zero value and
    [false] for every key and kind) unless an option replaced it. *)
Theorem NewSource_fails_iff :
  (forall opts first,
      let o := WithAddress.apply opts WithAddress.initial in
      (exists msg, WithAddress.NewSource opts first = inl msg) <->
      (configify.Context o = None \/
       configify.Address o = EmptyString \/
       NewClient (WithAddress.toConsulConfig o) = None)) /\
  (forall opts s es,
      WithAddress.NewSource opts api.ListErr = inr s ->
      Forall (fun e => forall pairs idx,
                  e <> ListReturn (api.ListOk pairs idx)) es ->
      values (source (run s es)) = None /\
      forall k key,
        get k (source (run s es)) key =
        match configify.Defaults
                (WithAddress.apply opts WithAddress.initial) with
        | Some d => Some (sourceGet k d key)
        | None => None
        end) /\
  (forall opts s es,
      (forall option o, In option opts ->
         configify.Defaults (option o) = configify.Defaults o) ->
      WithAddress.NewSource opts api.ListErr = inr s ->
      Forall (fun e => forall pairs idx,
                  e <> ListReturn (api.ListOk pairs idx)) es ->
      forall k key, get k (source (run s es)) key = Some (zero k, false)).
Proof.
  assert (Hblank : forall opts s es,
            WithAddress.NewSource opts api.ListErr = inr s ->
            Forall (fun e => forall pairs idx,
                        e <> ListReturn (api.ListOk pairs idx)) es ->
            values (source (run s es)) = None /\
            forall k key,
              get k (source (run s es)) key =
              match configify.Defaults
                      (WithAddress.apply opts WithAddress.initial) with
              | Some d => Some (sourceGet k d key)
              | None => None
              end).
  { intros opts s es Hnew Hall.
    destruct (run_no_listing s es Hall) as (Hv & _ & Ho).
    revert Hnew. unfold WithAddress.NewSource.
    destruct (configify.Context _) as [ctx |]; [| discriminate].
    destruct (negb _); [discriminate |].
    destruct (NewClient _) as [client |]; [| discriminate].
    cbn. intros [= <-]. cbn in Hv, Ho. split; [exact Hv |].
    intros k key. rewrite get_miss by (now rewrite Hv).
    unfold Defaults_of. now rewrite Ho. }
  split; [| split].
  - intros opts first o. unfold WithAddress.NewSource. fold o.
    destruct (configify.Context o) as [ctx |].
    2:{ split; [auto | intros _; eauto]. }
    destruct (configify.Address o) as [| a rest] eqn:Ha; cbn.
    { split; [auto | intros _; eauto]. }
    destruct (NewClient (WithAddress.toConsulConfig o)) as [client |].
    2:{ split; [auto | intros _; eauto]. }
    destruct (refresh first _) as [c made]. cbn.
    split; [intros [msg Hm]; discriminate |].
    intros [H | [H | H]]; discriminate.
  - exact Hblank.
  - intros opts s es Hkeep Hnew Hall k key.
    destruct (Hblank opts s es Hnew Hall) as [_ Hget].
    rewrite Hget, (apply_keeps_Defaults opts _ Hkeep). cbn.
    now rewrite Empty_zero.
Qed.

(** C10. [Watch] puts its argument in the slot whatever was there, and
    [refresh] calls nobody when the slot is empty; so once [Watch(nil)]
    has been called, no event makes a call until a callback is
    registered again. *)
Theorem Watch_nil_unsubscribes (s : System) (es : list Event) :
  Forall (fun e => forall w, e <> CallWatch (Some w)) es ->
  (forall cb c, watcher (Watch cb c) = cb) /\
  (forall r c, watcher c = None -> snd (refresh r c) = []) /\
  watcher (source (step s (CallWatch None))) = None /\
  calls (run (step s (CallWatch None)) es) = calls s.
Proof.
  intros Hall. split; [reflexivity | split; [apply refresh_quiet |]].
  split; [reflexivity |].
  destruct (run_unwatched (step s (CallWatch None)) es eq_refl Hall)
    as [_ Hc].
  exact Hc.
Qed.

End LifecycleContract.

(** ** The properties at work on the fixture *)

Lemma fixture_numeral_fails (s : string) :
  snd (Fixture.toInt64 s) = false -> fst (Fixture.toInt64 s) = 0.
Proof.
  unfold Fixture.toInt64.
  repeat match goal with
         | |- context [match ?x with _ => _ end] => destruct x
         end; simpl; intros; try reflexivity; discriminate.
Qed.

Lemma fixture_zero_on_failure : @ZeroOnFailure Fixture.imports.
Proof.
  constructor; simpl; try (intros; reflexivity || discriminate).
  - apply fixture_numeral_fails.
  - intros s. unfold Fixture.toUint64.
    repeat match goal with
           | |- context [match ?x with _ => _ end] => destruct x
           end; simpl; intros; try reflexivity; discriminate.
  - apply fixture_numeral_fails.
  - intros s. unfold Fixture.toBool.
    repeat match goal with
           | |- context [if ?x then _ else _] => destruct x
           end; simpl; intros; try reflexivity; discriminate.
Qed.

Section OnTheFixture.
#[local] Existing Instance Fixture.imports.

Lemma get_present_parsed_witness :
  mapGet (values Fixture.loaded) (qualify Fixture.loaded "HTTP_PORT")
  = Some " 1234 "%string /\
  parse KInt8 (TrimSpace " 1234 ") = Some (-46) /\
  get KInt8 Fixture.loaded "HTTP_PORT" = Some (-46, true) /\
  mapGet (values (fst (refresh (api.ListOk Fixture.store 7) Fixture.blank)))
         (qualify Fixture.blank "HTTP_PORT")
  = Some " 1234 "%string /\
  get KInt8 (fst (refresh (api.ListOk Fixture.store 7) Fixture.blank))
      "HTTP_PORT"
  = Some (-46, true).
Proof.
  split; [vm_compute; reflexivity | split; [vm_compute; reflexivity |]].
  destruct (get_present_parsed KInt8 Fixture.loaded "HTTP_PORT" " 1234 "
              (-46)) as (Hget & _ & _ & Hstore).
  - vm_compute; reflexivity.
  - vm_compute; reflexivity.
  - split; [exact Hget |].
    destruct (Hstore Fixture.blank
                [Fixture.pair "FOO/EMPTY" "";
                 Fixture.pair "FOO/HTTP_HOST" "foo.example.com"]
                (Fixture.pair "FOO/HTTP_PORT" " 1234 ")
                [Fixture.pair "FOO/BOOL_TRUE" "true";
                 Fixture.pair "FOO/LABELS" "a, b,   c ,d "]
                7%N) as (Hmap & _ & Hget').
    + vm_compute; reflexivity.
    + reflexivity.
    + repeat constructor; vm_compute; discriminate.
    + reflexivity.
    + split; [exact Hmap | exact Hget'].
Defined.

Lemma get_absent_defaults_witness :
  mapGet (values Fixture.loaded) (qualify Fixture.loaded "REGION") = None /\
  get KString Fixture.loaded "REGION" = Some ("eu"%string, true).
Proof.
  split; [vm_compute; reflexivity |].
  apply (get_absent_defaults KString Fixture.loaded "REGION"
           Fixture.fallback).
  - vm_compute; reflexivity.
  - reflexivity.
Defined.

Lemma get_present_unparseable_witness :
  mapGet (values Fixture.loaded) (qualify Fixture.loaded "HTTP_HOST")
  = Some "foo.example.com"%string /\
  get KInt8 Fixture.loaded "HTTP_HOST" = Some (0, false) /\
  get KInt8 (withDefaults None Fixture.loaded) "HTTP_HOST" = Some (0, false).
Proof.
  split; [vm_compute; reflexivity |].
  pose proof (get_present_unparseable KInt8 Fixture.loaded "HTTP_HOST"
                "foo.example.com" fixture_zero_on_failure) as H.
  destruct H as [H1 H2].
  - vm_compute; reflexivity.
  - vm_compute; reflexivity.
  - split; [exact H1 | exact (H2 None)].
Defined.

Lemma narrow_integers_truncate_witness :
  Int8 Fixture.loaded "HTTP_PORT" = Some (-46, true) /\
  Uint8 Fixture.loaded "HTTP_PORT" = Some (210, true).
Proof.
  pose proof (narrow_integers_truncate Fixture.loaded "HTTP_PORT" " 1234 "
                1234 1234 true true) as H.
  destruct H as (_ & _ & H8 & U8).
  - vm_compute; reflexivity.
  - vm_compute; reflexivity.
  - vm_compute; reflexivity.
  - split; [exact (H8 eq_refl eq_refl) | exact (U8 eq_refl eq_refl)].
Defined.

Lemma stale_refresh_noop_witness :
  (7 <= lastIndex Fixture.loaded)%N /\
  refresh (api.ListOk Fixture.store' 7) Fixture.loaded
  = (Fixture.loaded, []).
Proof.
  split; [vm_compute; discriminate |].
  apply (stale_refresh_noop Fixture.loaded Fixture.store' 7).
  vm_compute; discriminate.
Defined.

Lemma failed_refresh_silent_witness :
  loop Fixture.listing = Listing /\
  source (step Fixture.listing (ListReturn api.ListErr))
  = source Fixture.listing /\
  calls (step Fixture.listing (ListReturn api.ListErr))
  = calls Fixture.listing.
Proof.
  split; [reflexivity |].
  destruct (failed_refresh_silent Fixture.listing eq_refl)
    as (_ & H1 & H2 & _).
  split; [exact H1 | exact H2].
Defined.

Lemma watch_fires_per_swap_witness :
  loop Fixture.watched_listing = Listing /\
  called (step Fixture.watched_listing
               (ListReturn (api.ListOk Fixture.store' 9))) = [1%nat] /\
  called (step Fixture.watched_listing
               (ListReturn (api.ListOk Fixture.store' 7))) = [].
Proof.
  split; [reflexivity |].
  destruct watch_fires_per_swap as (_ & _ & H & _).
  pose proof (H Fixture.watched_listing Fixture.store' 9%N eq_refl) as H9.
  pose proof (H Fixture.watched_listing Fixture.store' 7%N eq_refl) as H7.
  change (calls (step Fixture.watched_listing
                      (ListReturn (api.ListOk Fixture.store' 7)))
          = calls Fixture.watched_listing) in H7.
  destruct H9 as (_ & _ & H9).
  unfold called. rewrite H9, H7. split; reflexivity.
Defined.

Lemma cancel_stops_refreshing_witness :
  loop (step (Fixture.running Fixture.loaded) CtxCancel) = Returned /\
  get KString
      (source (run (step (Fixture.running Fixture.loaded) CtxCancel)
                   [TimerFire; Fixture.newer]))
      "HTTP_HOST"
  = get KString
      (source (step (Fixture.running Fixture.loaded) CtxCancel))
      "HTTP_HOST".
Proof.
  destruct (cancel_stops_refreshing (Fixture.running Fixture.loaded))
    as (_ & _ & H1 & _ & H2).
  assert (Hr : loop (step (Fixture.running Fixture.loaded) CtxCancel)
               = Returned)
    by (apply H1; discriminate).
  split; [exact Hr |].
  apply (H2 (step (Fixture.running Fixture.loaded) CtxCancel) Hr).
Defined.

Lemma NewSource_fails_iff_witness :
  (exists msg, WithAddress.NewSource [Fixture.setup ""] api.ListErr
               = inl msg) /\
  (exists msg,
      WithAddress.NewSource [Fixture.setup "ftp://moo"] api.ListErr
      = inl msg) /\
  (exists msg, WithAddress.NewSource [] api.ListErr = inl msg) /\
  ~ (exists msg,
        WithAddress.NewSource [Fixture.setup "asldjfaslkdjf"] api.ListErr
        = inl msg) /\
  (exists s,
      WithAddress.NewSource [Fixture.setup "asldjfaslkdjf"] api.ListErr
      = inr s /\
      values (source (run s Fixture.failing)) = None /\
      get KString (source (run s Fixture.failing)) "HTTP_HOST"
      = Some (EmptyString, false) /\
      get KInt16 (source (run s Fixture.failing)) "HTTP_PORT"
      = Some (0, false)).
Proof.
  destruct NewSource_fails_iff as (H & Hblank & Hzero).
  split; [| split; [| split; [| split]]].
  - apply (H [Fixture.setup ""] api.ListErr). right. left. reflexivity.
  - apply (H [Fixture.setup "ftp://moo"] api.ListErr). right. right.
    reflexivity.
  - apply (H [] api.ListErr). left. reflexivity.
  - intros Hm.
    apply (H [Fixture.setup "asldjfaslkdjf"] api.ListErr) in Hm.
    destruct Hm as [Hm | [Hm | Hm]]; discriminate.
  - assert (Hall : Forall (fun e => forall pairs idx,
                              e <> ListReturn (api.ListOk pairs idx))
                          Fixture.failing)
      by (repeat constructor; discriminate).
    assert (Hkeep : forall option o,
               In option [Fixture.setup "asldjfaslkdjf"] ->
               configify.Defaults (option o) = configify.Defaults o)
      by (intros option o [<- | []]; reflexivity).
    eexists. split; [reflexivity |].
    split; [| split].
    + apply (Hblank [Fixture.setup "asldjfaslkdjf"] _ Fixture.failing
               eq_refl Hall).
    + apply (Hzero [Fixture.setup "asldjfaslkdjf"] _ Fixture.failing
               Hkeep eq_refl Hall KString "HTTP_HOST"%string).
    + apply (Hzero [Fixture.setup "asldjfaslkdjf"] _ Fixture.failing
               Hkeep eq_refl Hall KInt16 "HTTP_PORT"%string).
Defined.

Lemma Watch_nil_unsubscribes_witness :
  Forall (fun e => forall w, e <> CallWatch (Some w))
         [TimerFire; Fixture.newer] /\
  calls (run (step Fixture.watched (CallWatch None))
             [TimerFire; Fixture.newer])
  = [].
Proof.
  assert (Hall : Forall (fun e => forall w, e <> CallWatch (Some w))
                        [TimerFire; Fixture.newer])
    by (repeat constructor; discriminate).
  split; [exact Hall |].
  apply (Watch_nil_unsubscribes Fixture.watched
           [TimerFire; Fixture.newer] Hall).
Defined.

Example fixture_first_listing_fails :
  NewSource Fixture.opts api.ListErr
  = inr (Fixture.running Fixture.blank).
Proof. reflexivity. Qed.

Example fixture_first_listing :
  NewSource Fixture.opts (api.ListOk Fixture.store 7)
  = inr (Fixture.running Fixture.loaded).
Proof. reflexivity. Qed.

(** The first listing of a source may fail; a callback registered after
    that is called by the refresh that stores the very first snapshot. *)
Lemma first_snapshot_notifies : ~ notifies_only_over_snapshot.
Proof.
  intros H.
  pose (es := [CallWatch (Some 1%nat); TimerFire]).
  pose (s := run (Fixture.running Fixture.blank) es).
  assert (Hs : reachable s).
  { exists Fixture.opts, api.ListErr, (Fixture.running Fixture.blank), es.
    split; reflexivity. }
  destruct (H s (api.ListOk Fixture.store 7) Hs eq_refl) as [_ Hsnap].
  - intros Heq. apply (f_equal (@length _)) in Heq.
    vm_compute in Heq. discriminate.
  - vm_compute in Hsnap. discriminate.
Qed.

(** A listing that is in flight when [Done()] is closed still lands:
    the host read after the signal is the new one. *)
Lemma in_flight_refresh_lands : ~ frozen_by_signal.
Proof.
  intros H.
  assert (Hs : reachable Fixture.listing).
  { exists Fixture.opts, (api.ListOk Fixture.store 7),
      (Fixture.running Fixture.loaded), [TimerFire].
    split; reflexivity. }
  specialize (H Fixture.listing [Fixture.newer]
                KString "HTTP_HOST"%string Hs).
  vm_compute in H. discriminate.
Qed.

Example fixture_host_before :
  String (source (step Fixture.listing CtxCancel)) "HTTP_HOST"
  = Some ("foo.example.com"%string, true).
Proof. vm_compute. reflexivity. Qed.

Example fixture_host_after :
  String (source (run (step Fixture.listing CtxCancel) [Fixture.newer]))
         "HTTP_HOST"
  = Some ("google.com"%string, true).
Proof. vm_compute. reflexivity. Qed.

End OnTheFixture.

(** ** Further properties of the snapshot and the accessors *)

Section Snapshot.
Context {E : Extern}.

(** A key no listed pair carries is not in the map built from the
    listing. *)
Lemma updatedValues_unlisted (pairs : list api.KVPair) (k : string) :
  Forall (fun p => api.Key p <> k) pairs -> updatedValues pairs !! k = None.
Proof.
  intros Hall. destruct (updatedValues pairs !! k) as [raw |] eqn:Hk;
    [| reflexivity].
  apply updatedValues_origin in Hk. destruct Hk as (p & Hin & Hp & _).
  rewrite Forall_forall in Hall. rewrite <- list_elem_of_In in Hin.
  now destruct (Hall p Hin).
Qed.

(** Every accessor answers once a Defaults source is set. *)
Lemma get_answers (k : Kind) (c : consulSource) (key : string)
    (d : configify.Source) :
  Defaults_of c = Some d -> exists r, get k c key = Some r.
Proof.
  intros Hd. destruct (mapGet (values c) (qualify c key)) as [raw |] eqn:Hin.
  - destruct (parse k (TrimSpace raw)) as [v |] eqn:Hp.
    + exists (v, true). eapply get_hit; eassumption.
    + destruct (get_miss_parse k c key raw Hin Hp) as (v & Hv & _). eauto.
  - rewrite (get_miss k c key Hin), Hd. eauto.
Qed.

(** The snapshot is replaced, not merged: after [refresh] has applied a
    newer listing, a key that no listed pair carries is a miss and is
    answered by the Defaults, whether or not the old snapshot had it. *)
Theorem refresh_drops_unlisted (k : Kind) (c : consulSource)
    (pairs : list api.KVPair) (idx : N) (key : string)
    (d : configify.Source) :
  (lastIndex c < idx)%N ->
  Forall (fun p => api.Key p <> qualify c key) pairs ->
  Defaults_of c = Some d ->
  lookup (fst (refresh (api.ListOk pairs idx) c)) key = (EmptyString, false) /\
  get k (fst (refresh (api.ListOk pairs idx) c)) key
  = Some (sourceGet k d key).
Proof.
  intros Hlt Hall Hd. rewrite refresh_newer by assumption.
  set (c' := {| kv := kv c |}).
  assert (Hout : mapGet (values c') (qualify c' key) = None)
    by (apply updatedValues_unlisted; exact Hall).
  split; [now apply lookup_absent |].
  rewrite (get_miss k c' key Hout).
  change (Defaults_of c') with (Defaults_of c). now rewrite Hd.
Qed.

(** When a listing carries a key more than once, the last pair is the one
    the snapshot keeps: [String] returns its trimmed value. *)
Theorem refresh_last_pair_wins (c : consulSource)
    (before after : list api.KVPair) (p : api.KVPair) (idx : N)
    (key : string) :
  (lastIndex c < idx)%N ->
  api.Key p = qualify c key ->
  Forall (fun q => api.Key q <> api.Key p) after ->
  String (fst (refresh (api.ListOk (before ++ p :: after) idx) c)) key
  = Some (TrimSpace (Go.string_of_bytes (api.Value p)), true).
Proof.
  intros Hlt Hk Hall. rewrite refresh_newer by assumption.
  set (c' := {| kv := kv c |}).
  assert (Hin : mapGet (values c') (qualify c' key)
                = Some (Go.string_of_bytes (api.Value p))).
  { change (qualify c' key) with (qualify c key). rewrite <- Hk.
    now apply updatedValues_last. }
  unfold String. now rewrite (lookup_present c' key _ Hin).
Qed.

(** Handing [refresh] the listing it has just handled changes nothing
    and calls nobody, whatever the listing was. *)
Theorem refresh_twice (r : api.ListResult) (c : consulSource) :
  refresh r (fst (refresh r c)) = (fst (refresh r c), []).
Proof.
  destruct r as [| pairs idx]; [reflexivity |].
  destruct (N.le_gt_cases idx (lastIndex c)) as [Hle | Hlt].
  - rewrite (refresh_stale c pairs idx Hle). cbn [fst].
    now apply refresh_stale.
  - rewrite (refresh_newer c pairs idx Hlt). apply refresh_stale.
    cbn. lia.
Qed.

(** Whatever number the coercion library produces, a narrow accessor
    returns a value of its own range on a key that is in the snapshot. *)
Theorem narrow_values_in_range (c : consulSource) (key raw : string) :
  mapGet (values c) (qualify c key) = Some raw ->
  (forall v ok, Int8 c key = Some (v, ok) -> -128 <= v < 128) /\
  (forall v ok, Int16 c key = Some (v, ok) -> -32768 <= v < 32768) /\
  (forall v ok, Int32 c key = Some (v, ok) -> - 2 ^ 31 <= v < 2 ^ 31) /\
  (forall v ok, Uint8 c key = Some (v, ok) -> 0 <= v < 256) /\
  (forall v ok, Uint16 c key = Some (v, ok) -> 0 <= v < 65536) /\
  (forall v ok, Uint32 c key = Some (v, ok) -> 0 <= v < 2 ^ 32).
Proof.
  intros Hin. pose proof (lookup_present _ _ _ Hin) as Hl.
  split; [| split; [| split; [| split; [| split]]]]; intros v ok;
    unfold Int8, Int16, Int32, Uint8, Uint16, Uint32; rewrite Hl; simpl;
    match goal with
    | |- context [StringToInt64 ?s] => destruct (StringToInt64 s) as [n b]
    | |- context [StringToUint64 ?s] => destruct (StringToUint64 s) as [n b]
    end; intros [= <- _];
    first [ apply (truncS_range 8); lia | apply (truncS_range 16); lia
          | apply (truncS_range 32); lia | apply (truncU_range 8); lia
          | apply (truncU_range 16); lia | apply (truncU_range 32); lia ].
Qed.

(** A number that fits the narrow type comes back unchanged, with the
    flag of the coercion. *)
Theorem narrow_exact_when_fits (c : consulSource) (key raw : string)
    (n m : Z) (ok ok' : bool) :
  mapGet (values c) (qualify c key) = Some raw ->
  StringToInt64 (TrimSpace raw) = (n, ok) ->
  StringToUint64 (TrimSpace raw) = (m, ok') ->
  -128 <= n < 128 ->
  0 <= m < 256 ->
  Int8 c key = Some (n, ok) /\ Int16 c key = Some (n, ok) /\
  Int32 c key = Some (n, ok) /\ Int64 c key = Some (n, ok) /\
  Uint8 c key = Some (m, ok') /\ Uint16 c key = Some (m, ok') /\
  Uint32 c key = Some (m, ok') /\ Uint64 c key = Some (m, ok').
Proof.
  intros Hin Hn Hm Hr Hr'. pose proof (lookup_present _ _ _ Hin) as Hl.
  repeat split;
    unfold Int8, Int16, Int32, Int64, Uint8, Uint16, Uint32, Uint64;
    rewrite Hl; simpl; rewrite ?Hn, ?Hm; try reflexivity;
    unfold Go.int8, Go.int16, Go.int32, Go.uint8, Go.uint16, Go.uint32;
    rewrite ?truncS_fits, ?truncU_fits by (simpl; lia); reflexivity.
Qed.

End Snapshot.

(** ** Further properties of construction, the loop and the watch slot *)

Section Lifetime.
Context {E : Extern}.

(** What [NewSource] of src/consul.go returns when it succeeds. *)
Lemma NewSource_start (opts : Options) (first : api.ListResult)
    (s0 : System) :
  NewSource opts first = inr s0 ->
  exists ctx client,
    configify.Context (Options_ opts) = Some ctx /\
    Client_ opts = Some client /\
    s0 = {| source := fst (refresh first (started opts client));
            loop := enterSelect (configify.ctxDone ctx);
            done := configify.ctxDone ctx; calls := [] |}.
Proof.
  unfold NewSource.
  destruct (configify.Context (Options_ opts)) as [ctx |] eqn:Hx;
    [| discriminate].
  destruct (Client_ opts) as [client |] eqn:Hc; [| discriminate].
  match goal with
  | |- context [refresh first ?src] =>
      assert (Hs : src = started opts client)
        by (unfold started; rewrite Hc, Hx; reflexivity);
      rewrite Hs
  end.
  pose proof (refresh_quiet first (started opts client) eq_refl) as Hq.
  destruct (refresh first (started opts client)) as [c made] eqn:Hr.
  cbn in *. subst made. intros [= <-]. exists ctx, client.
  rewrite Hr. repeat split; reflexivity.
Qed.

Lemma run_invariant (P : System -> Prop) :
  (forall s e, P s -> P (step s e)) ->
  forall es s, P s -> P (run s es).
Proof.
  intros Hstep es. induction es as [| e es IH]; intros s Hs; [exact Hs |].
  apply (IH (step s e)). now apply Hstep.
Qed.

Lemma reachable_invariant (P : System -> Prop) :
  (forall opts first s0, NewSource opts first = inr s0 -> P s0) ->
  (forall s e, P s -> P (step s e)) ->
  forall s, reachable s -> P s.
Proof.
  intros Hinit Hstep s (opts & first & s0 & es & Hnew & ->).
  apply run_invariant; eauto.
Qed.

Lemma step_options (s : System) (e : Event) :
  options (source (step s e)) = options (source s) /\
  kv (source (step s e)) = kv (source s).
Proof.
  destruct e as [| | r | cb]; cbn; auto.
  destruct (loop s); auto.
  destruct r as [| pairs idx]; cbn; auto.
  destruct (idx <=? lastIndex (source s))%N; cbn; auto.
  destruct (watcher (source s)); cbn; auto.
Qed.

Lemma run_options (s : System) (es : list Event) :
  options (source (run s es)) = options (source s) /\
  kv (source (run s es)) = kv (source s).
Proof.
  apply (run_invariant
           (fun t => options (source t) = options (source s) /\
                     kv (source t) = kv (source s))); [| auto].
  intros t e [H1 H2]. destruct (step_options t e) as [S1 S2].
  split; congruence.
Qed.

Lemma NewSource_options (opts : Options) (first : api.ListResult)
    (s : System) :
  NewSource opts first = inr s ->
  exists client,
    Client_ opts = Some client /\
    options (source s) = options (started opts client) /\
    kv (source s) = client.
Proof.
  intros Hnew. destruct (NewSource_start _ _ _ Hnew)
    as (ctx & client & Hctx & Hcl & ->).
  exists client. cbn [source].
  destruct (refresh_keeps first (started opts client)) as (Ho & _ & _).
  split; [exact Hcl | split; [exact Ho |]].
  destruct first as [| pairs idx]; cbn; [reflexivity |].
  now destruct (idx <=? 0)%N.
Qed.

(** [Options()] answers the same for the whole life of a source: no
    refresh, registration or cancellation touches the options or the
    client handle, so keys are qualified the same way throughout. *)
Theorem options_fixed_for_life (s : System) (es : list Event) :
  Options_method (source (run s es)) = Options_method (source s) /\
  kv (source (run s es)) = kv (source s) /\
  forall key, qualify (source (run s es)) key = qualify (source s) key.
Proof.
  destruct (run_options s es) as [Ho Hk].
  unfold Options_method, qualify, Namespace_of. rewrite Ho. auto.
Qed.

(** The client-based constructor keeps the caller's options, except that
    an interval below one second becomes ten seconds and a nil Defaults
    becomes the empty source; the client is the handle of the source. *)
Theorem NewSource_fills_options (opts : Options) (first : api.ListResult)
    (s : System) :
  NewSource opts first = inr s ->
  1 * second <= RefreshInterval (options (source s)) /\
  (1 * second <= RefreshInterval opts ->
     RefreshInterval (options (source s)) = RefreshInterval opts) /\
  (RefreshInterval opts < 1 * second ->
     RefreshInterval (options (source s)) = 10 * second) /\
  configify.Namespace_ (Options_method (source s))
  = configify.Namespace_ (Options_ opts) /\
  configify.Defaults (Options_method (source s))
  = Some match configify.Defaults (Options_ opts) with
         | Some d => d
         | None => configify.Empty
         end /\
  Some (kv (source s)) = Client_ opts.
Proof.
  intros Hnew.
  destruct (NewSource_options _ _ _ Hnew) as (client & Hcl & Ho & Hk).
  unfold Options_method. rewrite Ho, Hk, Hcl. cbn. unfold second in *.
  destruct (Z.ltb_spec (RefreshInterval opts) (1 * 1000000000)).
  - repeat split; try lia. now destruct (configify.Defaults (Options_ opts)).
  - repeat split; try lia. now destruct (configify.Defaults (Options_ opts)).
Qed.

(** A source built by the client-based constructor never panics in an
    accessor: whatever happens to it afterwards, every accessor of every
    kind returns a value and a flag for every key. *)
Theorem NewSource_accessors_answer (opts : Options) (first : api.ListResult)
    (s : System) (es : list Event) (k : Kind) (key : string) :
  NewSource opts first = inr s ->
  exists v found, get k (source (run s es)) key = Some (v, found).
Proof.
  intros Hnew.
  destruct (NewSource_options _ _ _ Hnew) as (client & _ & Ho & _).
  destruct (run_options s es) as [Hr _].
  assert (Hd : exists d, Defaults_of (source (run s es)) = Some d).
  { unfold Defaults_of. rewrite Hr, Ho. cbn.
    destruct (configify.Defaults (Options_ opts)); eauto. }
  destruct Hd as [d Hd].
  destruct (get_answers k _ key d Hd) as [[v found] Hg]. eauto.
Qed.

End Lifetime.

Section Invariants.
Context {E : Extern}.

Lemma reachable_run (s : System) (es : list Event) :
  reachable s -> reachable (run s es).
Proof.
  intros (opts & first & s0 & es0 & Hnew & ->).
  exists opts, first, s0, (es0 ++ es). split; [exact Hnew |].
  symmetry. apply run_app.
Qed.

(** Each event appends at most one call to the log. *)
Lemma step_calls_grow (s : System) (e : Event) :
  exists made, calls (step s e) = calls s ++ made /\ (length made <= 1)%nat.
Proof.
  destruct e as [| | r | cb]; cbn;
    try (exists []; rewrite app_nil_r; split; [reflexivity | cbn; lia]).
  destruct (loop s);
    try (exists []; rewrite app_nil_r; split; [reflexivity | cbn; lia]).
  destruct r as [| pairs idx]; cbn;
    [exists []; split; [reflexivity | cbn; lia] |].
  destruct (idx <=? lastIndex (source s))%N; cbn;
    [exists []; split; [reflexivity | cbn; lia] |].
  destruct (watcher (source s)); cbn; eexists; split;
    try reflexivity; cbn; lia.
Qed.

(** The call log only grows: a run keeps every call already made, in
    order, and adds at most one call per event. *)
Theorem call_log_grows (s : System) (es : list Event) :
  exists made,
    calls (run s es) = calls s ++ made /\ (length made <= length es)%nat.
Proof.
  revert s. induction es as [| e es IH]; intros s.
  - exists []. cbn. rewrite app_nil_r. split; [reflexivity | lia].
  - destruct (step_calls_grow s e) as (m1 & H1 & L1).
    destruct (IH (step s e)) as (m2 & H2 & L2).
    exists (m1 ++ m2). change (run s (e :: es)) with (run (step s e) es).
    rewrite H2, H1, <- app_assoc. split; [reflexivity |].
    rewrite length_app. cbn. lia.
Qed.

(** [Done()] is closed by a cancellation and by nothing else. *)
Lemma run_not_cancelled (s : System) (es : list Event) :
  done s = false -> Forall notCancel es -> done (run s es) = false.
Proof.
  revert s. induction es as [| e es IH]; intros s Hd Hall; [exact Hd |].
  apply Forall_cons in Hall as [He Hall].
  apply (IH (step s e)); [| exact Hall].
  destruct e as [| | r | cb]; cbn; try exact Hd.
  - now destruct He.
  - destruct (loop s); try exact Hd.
    now destruct (refresh r (source s)).
Qed.

(** The goroutine of [listen] returns only through cancellation, and
    after cancellation it never waits for the timer again: failed
    listings, stale listings and registrations keep it running. *)
Theorem loop_returns_only_on_cancel (s : System) :
  reachable s ->
  (loop s = Returned -> done s = true) /\
  (done s = true -> loop s <> Select) /\
  (forall es, done s = false -> Forall notCancel es ->
     done (run s es) = false /\ loop (run s es) <> Returned).
Proof.
  assert (Hinv : forall t, reachable t ->
                   (loop t = Returned -> done t = true) /\
                   (done t = true -> loop t <> Select)).
  { apply reachable_invariant.
    - intros opts first s0 Hnew.
      destruct (NewSource_start _ _ _ Hnew) as (ctx & client & _ & _ & ->).
      cbn. destruct (configify.ctxDone ctx); cbn; split; congruence.
    - intros t e [H1 H2]. destruct e as [| | r | cb]; cbn.
      + destruct (loop t); split; congruence.
      + destruct (loop t) eqn:Hl; split; intros Ha; try discriminate;
          try (exact (H1 eq_refl)); try (intros Hb; discriminate).
      + destruct (loop t) eqn:Hl; cbn; try (rewrite Hl; auto).
        destruct (refresh r (source t)) as [c made]. cbn.
        destruct (done t); cbn; split; congruence.
      + auto. }
  intros Hs. destruct (Hinv s Hs) as [H1 H2].
  split; [exact H1 | split; [exact H2 |]].
  intros es Hd Hall.
  pose proof (run_not_cancelled s es Hd Hall) as Hd'.
  split; [exact Hd' |].
  intros Hl. destruct (Hinv (run s es) (reachable_run s es Hs)) as [R1 _].
  rewrite (R1 Hl) in Hd'. discriminate.
Qed.

(** What [refresh] keeps of the tie between snapshot and index. *)
Lemma refresh_snapshot_index (r : api.ListResult) (c : consulSource) :
  (hasSnapshot c = true <-> (0 < lastIndex c)%N) ->
  (hasSnapshot (fst (refresh r c)) = true
   <-> (0 < lastIndex (fst (refresh r c)))%N).
Proof.
  intros H. destruct r as [| pairs idx]; cbn; [exact H |].
  destruct (N.leb_spec idx (lastIndex c)); cbn; [exact H |].
  destruct (watcher c); cbn; split; intros; try reflexivity; lia.
Qed.

(** A source has a snapshot exactly when its applied index is above 0:
    it starts with neither, and gets both from the first listing that is
    accepted. *)
Theorem snapshot_iff_index (s : System) :
  reachable s ->
  (hasSnapshot (source s) = true <-> (0 < lastIndex (source s))%N).
Proof.
  revert s. apply reachable_invariant.
  - intros opts first s0 Hnew.
    destruct (NewSource_start _ _ _ Hnew) as (ctx & client & _ & _ & ->).
    cbn [source]. apply refresh_snapshot_index. cbn. split; [discriminate | lia].
  - intros t e H. destruct e as [| | r | cb]; cbn; try exact H.
    destruct (loop t); try exact H.
    pose proof (refresh_snapshot_index r (source t) H) as Hr.
    now destruct (refresh r (source t)).
Qed.

Lemma StronglySorted_snoc {A : Type} (R : A -> A -> Prop) (l : list A)
    (a : A) :
  StronglySorted R l -> Forall (fun x => R x a) l ->
  StronglySorted R (l ++ [a]).
Proof.
  induction 1 as [| x l Hs IH Hx]; intros Hall; cbn.
  - repeat constructor.
  - apply Forall_cons in Hall as [Hxa Hall]. constructor; [auto |].
    apply Forall_app. split; [exact Hx | repeat constructor; exact Hxa].
Qed.

(** Callbacks see progress only: over the life of a source the snapshots
    handed to the callback carry strictly increasing indices, none above
    the index applied so far, and each of them holds a snapshot. *)
Theorem notified_indices_increase (s : System) :
  reachable s ->
  StronglySorted N.lt (seen s) /\
  Forall (fun i => (i <= lastIndex (source s))%N) (seen s) /\
  Forall (fun call : Call => hasSnapshot (snd call) = true) (calls s).
Proof.
  revert s. apply reachable_invariant.
  - intros opts first s0 Hnew.
    destruct (NewSource_start _ _ _ Hnew) as (ctx & client & _ & _ & ->).
    unfold seen. cbn. repeat constructor.
  - intros t e (H1 & H2 & H3).
    assert (Hsame : forall u, calls u = calls t ->
                      (lastIndex (source t) <= lastIndex (source u))%N ->
                      StronglySorted N.lt (seen u) /\
                      Forall (fun i => (i <= lastIndex (source u))%N) (seen u) /\
                      Forall (fun call : Call => hasSnapshot (snd call) = true)
                             (calls u)).
    { intros u Hc Hle. unfold seen in *. rewrite Hc.
      split; [exact H1 | split; [| exact H3]].
      eapply Forall_impl; [exact H2 |]. cbn. intros i Hi. lia. }
    destruct e as [| | r | cb]; try (apply Hsame; cbn; [reflexivity | lia]).
    cbn [step]. destruct (loop t); try (apply Hsame; [reflexivity | lia]).
    destruct r as [| pairs idx].
    { apply Hsame; cbn; [apply app_nil_r | lia]. }
    destruct (N.le_gt_cases idx (lastIndex (source t))) as [Hle | Hlt].
    { rewrite (refresh_stale _ pairs idx Hle).
      apply Hsame; cbn; [apply app_nil_r | lia]. }
    rewrite (refresh_swap _ pairs idx Hlt).
    destruct (watcher (source t)) as [w |].
    2:{ apply Hsame; cbn; [apply app_nil_r | lia]. }
    unfold seen in *. cbn. rewrite map_app. cbn.
    split; [| split].
    + apply StronglySorted_snoc; [exact H1 |].
      eapply Forall_impl; [exact H2 |]. cbn. intros i Hi. lia.
    + apply Forall_app. split; [| repeat constructor; cbn; lia].
      eapply Forall_impl; [exact H2 |]. cbn. intros i Hi. lia.
    + apply Forall_app. split; [exact H3 | repeat constructor].
Qed.

(** A context that is already cancelled does not stop construction: the
    first listing is still fetched and applied, but the goroutine returns
    at once, so that first state is the last one and no call is ever
    made. *)
Theorem cancelled_at_construction (opts : Options) (first : api.ListResult)
    (ctx : configify.Ctx) (client : Client) :
  configify.Context (Options_ opts) = Some ctx ->
  configify.ctxDone ctx = true ->
  Client_ opts = Some client ->
  exists s,
    NewSource opts first = inr s /\
    loop s = Returned /\
    (forall pairs idx, first = api.ListOk pairs idx -> (0 < idx)%N ->
       values (source s) = Some (updatedValues pairs) /\
       lastIndex (source s) = idx) /\
    (forall es, values (source (run s es)) = values (source s) /\
                lastIndex (source (run s es)) = lastIndex (source s) /\
                calls (run s es) = []).
Proof.
  intros Hx Hd Hc.
  destruct (NewSource opts first) as [msg | s] eqn:Hnew.
  { exfalso. unfold NewSource in Hnew. rewrite Hx, Hc in Hnew.
    destruct (refresh first _) in Hnew. cbn in Hnew. discriminate. }
  exists s. split; [reflexivity |].
  destruct (NewSource_start _ _ _ Hnew) as (ctx' & client' & Hx' & Hc' & ->).
  assert (ctx' = ctx) as -> by congruence.
  assert (client' = client) as -> by congruence.
  cbn [loop source]. rewrite Hd. cbn [enterSelect].
  split; [reflexivity | split].
  - intros pairs idx -> Hpos.
    rewrite (refresh_newer (started opts client) pairs idx) by (cbn; lia).
    cbn. auto.
  - intros es.
    match goal with
    | |- context [run ?t es] =>
        destruct (run_Returned t es eq_refl) as (_ & R2 & _ & R4 & R5)
    end.
    auto.
Qed.

(** The slot holds one callback: of two registrations the later one alone
    is called by the next accepted listing, once. *)
Theorem Watch_last_wins (s : System) (cb : option Callback) (w : Callback)
    (pairs : list api.KVPair) (idx : N) :
  loop s = Listing ->
  (lastIndex (source s) < idx)%N ->
  called (step (step (step s (CallWatch cb)) (CallWatch (Some w)))
               (ListReturn (api.ListOk pairs idx)))
  = called s ++ [w].
Proof.
  intros Hl Hlt. cbn [step]. cbn [loop]. rewrite Hl.
  rewrite refresh_swap by (cbn; exact Hlt).
  unfold called. cbn. rewrite map_app. reflexivity.
Qed.

End Invariants.

Section OptionBased.
Context {E : Extern}.

(** The option-based constructor keeps the options exactly as the
    functional options left them, with no minimum on the interval, and
    [Options()] returns them for the whole life of the source. *)
Theorem WithAddress_options_as_applied (opts : list WithAddress.Option_)
    (first : api.ListResult) (s : System) (es : list Event) :
  WithAddress.NewSource opts first = inr s ->
  Options_method (source (run s es))
  = WithAddress.apply opts WithAddress.initial /\
  RefreshInterval (options (source (run s es)))
  = configify.RefreshInterval (WithAddress.apply opts WithAddress.initial) /\
  configify.Context (Options_method (source (run s es))) <> None /\
  configify.Address (Options_method (source (run s es))) <> EmptyString.
Proof.
  unfold WithAddress.NewSource.
  set (o := WithAddress.apply opts WithAddress.initial).
  destruct (configify.Context o) as [ctx |] eqn:Hx; [| discriminate].
  destruct (configify.Address o) as [| a rest] eqn:Ha; [discriminate |].
  cbn [WithAddress.nonEmpty negb].
  destruct (NewClient (WithAddress.toConsulConfig o)) as [client |];
    [| discriminate].
  match goal with
  | |- context [refresh first ?src] =>
      pose proof (refresh_keeps first src) as (Ho & _ & _);
      destruct (refresh first src) as [c made]
  end.
  cbn in Ho |- *. intros [= <-].
  destruct (run_options {| source := c; loop := enterSelect (configify.ctxDone ctx);
                           done := configify.ctxDone ctx; calls := made |} es)
    as [Hr _].
  cbn in Hr. unfold Options_method. rewrite Hr, Ho. cbn.
  rewrite Hx, Ha. repeat split; discriminate.
Qed.

(** The handle of a source built by the option-based constructor is the
    client built for [toConsulConfig] of the applied options: the default
    configuration of the client library with the address of the options
    put in, and with basic authentication replaced by the given user name
    and password when either is non-empty (a password alone goes out with
    an empty user name); with neither, the authentication of the default
    configuration stays.  Nothing else of the default configuration is
    changed, and the namespace, the interval and the Defaults play no
    part. *)
Theorem WithAddress_client_config (opts : list WithAddress.Option_)
    (first : api.ListResult) (s : System) :
  WithAddress.NewSource opts first = inr s ->
  NewClient (WithAddress.toConsulConfig
               (WithAddress.apply opts WithAddress.initial))
  = Some (kv (source s)) /\
  api.ConfigAddress (WithAddress.toConsulConfig
                       (WithAddress.apply opts WithAddress.initial))
  = configify.Address (WithAddress.apply opts WithAddress.initial) /\
  api.ConfigOther (WithAddress.toConsulConfig
                     (WithAddress.apply opts WithAddress.initial))
  = api.ConfigOther DefaultConfig /\
  (configify.Username (WithAddress.apply opts WithAddress.initial)
   = EmptyString ->
   configify.Password (WithAddress.apply opts WithAddress.initial)
   = EmptyString ->
   api.HttpAuth (WithAddress.toConsulConfig
                   (WithAddress.apply opts WithAddress.initial))
   = api.HttpAuth DefaultConfig) /\
  (configify.Username (WithAddress.apply opts WithAddress.initial)
   <> EmptyString \/
   configify.Password (WithAddress.apply opts WithAddress.initial)
   <> EmptyString ->
   api.HttpAuth (WithAddress.toConsulConfig
                   (WithAddress.apply opts WithAddress.initial))
   = Some {| api.AuthUsername :=
               configify.Username
                 (WithAddress.apply opts WithAddress.initial);
             api.AuthPassword :=
               configify.Password
                 (WithAddress.apply opts WithAddress.initial) |}).
Proof.
  set (o := WithAddress.apply opts WithAddress.initial).
  intros Hnew. split.
  - revert Hnew. unfold WithAddress.NewSource. fold o.
    destruct (configify.Context o) as [ctx |]; [| discriminate].
    destruct (negb _); [discriminate |].
    destruct (NewClient (WithAddress.toConsulConfig o)) as [client |];
      [| discriminate].
    match goal with
    | |- context [refresh first ?src] =>
        assert (Hk : kv (fst (refresh first src)) = client)
          by (destruct first as [| pairs idx]; cbn; [reflexivity |];
              now destruct (idx <=? 0)%N);
        destruct (refresh first src) as [c made]
    end.
    cbn in Hk |- *. intros [= <-]. cbn. now rewrite Hk.
  - unfold WithAddress.toConsulConfig.
    destruct (configify.Username o) as [| u us];
      destruct (configify.Password o) as [| p ps]; cbn;
      repeat split; try reflexivity; try discriminate;
      intros [H | H]; now destruct H.
Qed.

(** Functional options that leave a field alone leave it as the
    constructor set it. *)
Lemma apply_keeps {A : Type} (field : configify.Options -> A)
    (opts : list WithAddress.Option_) (d : configify.Options) :
  (forall option o, In option opts -> field (option o) = field o) ->
  field (WithAddress.apply opts d) = field d.
Proof.
  revert d. induction opts as [| option opts IH]; intros d H; [reflexivity |].
  cbn. fold (WithAddress.apply opts (option d)).
  rewrite IH by (intros; apply H; now right).
  apply H. now left.
Qed.

(** What the option-based constructor falls back on: when no functional
    option sets the interval it is ten seconds, and when none sets the
    Defaults they are the empty source, for the whole life of the
    source. *)
Theorem WithAddress_unset_options (opts : list WithAddress.Option_)
    (first : api.ListResult) (s : System) (es : list Event) :
  WithAddress.NewSource opts first = inr s ->
  ((forall option o, In option opts ->
      configify.RefreshInterval (option o) = configify.RefreshInterval o) ->
   configify.RefreshInterval (Options_method (source (run s es)))
   = 10 * second) /\
  ((forall option o, In option opts ->
      configify.Defaults (option o) = configify.Defaults o) ->
   configify.Defaults (Options_method (source (run s es)))
   = Some configify.Empty).
Proof.
  unfold WithAddress.NewSource.
  set (o := WithAddress.apply opts WithAddress.initial).
  destruct (configify.Context o) as [ctx |]; [| discriminate].
  destruct (negb _); [discriminate |].
  destruct (NewClient (WithAddress.toConsulConfig o)) as [client |];
    [| discriminate].
  match goal with
  | |- context [refresh first ?src] =>
      pose proof (refresh_keeps first src) as (Ho & _ & _);
      destruct (refresh first src) as [c made]
  end.
  cbn in Ho |- *. intros [= <-].
  destruct (run_options {| source := c; loop := enterSelect (configify.ctxDone ctx);
                           done := configify.ctxDone ctx; calls := made |} es)
    as [Hr _].
  cbn in Hr. unfold Options_method. rewrite Hr, Ho. cbn. subst o.
  split; intros Hkeep.
  - now rewrite (apply_keeps configify.RefreshInterval opts _ Hkeep).
  - now rewrite (apply_keeps configify.Defaults opts _ Hkeep).
Qed.

End OptionBased.

Section ClientBased.
Context {E : Extern}.

(** The constructor of src/consul.go, which is handed its client, fails
    exactly when the context or the client is nil, whatever the first
    listing returns: an unreachable store, an interval out of range or a
    nil Defaults do not make it fail. *)
Theorem NewSource_client_fails_iff (opts : Options)
    (first : api.ListResult) :
  ((exists msg, NewSource opts first = inl msg) <->
   (configify.Context (Options_ opts) = None \/ Client_ opts = None)) /\
  ((exists s, NewSource opts first = inr s) <->
   (configify.Context (Options_ opts) <> None /\ Client_ opts <> None)).
Proof.
  unfold NewSource.
  destruct (configify.Context (Options_ opts)) as [ctx |].
  2:{ split; split; try (intros [s Hs]; discriminate); eauto.
      intros [H _]. now destruct H. }
  destruct (Client_ opts) as [client |].
  2:{ split; split; try (intros [s Hs]; discriminate); eauto.
      intros [_ H]. now destruct H. }
  destruct (refresh first _) as [c made]. cbn.
  split; split.
  - intros [msg Hm]. discriminate.
  - intros [H | H]; discriminate.
  - intros _. split; discriminate.
  - intros _. eauto.
Qed.

End ClientBased.

Section MoreOnTheFixture.
#[local] Existing Instance Fixture.imports.

Lemma fixture_listing_reachable : reachable Fixture.listing.
Proof.
  exists Fixture.opts, (api.ListOk Fixture.store 7),
    (Fixture.running Fixture.loaded), [TimerFire].
  split; reflexivity.
Defined.

Lemma fixture_notified_reachable : reachable Fixture.notified.
Proof.
  exists Fixture.opts, (api.ListOk Fixture.store 7),
    (Fixture.running Fixture.loaded).
  eexists. split; reflexivity.
Defined.

Lemma refresh_drops_unlisted_witness :
  mapGet (values Fixture.loaded) (qualify Fixture.loaded "BOOL_TRUE")
  = Some "true"%string /\
  get KBool (fst (refresh (api.ListOk Fixture.store' 9) Fixture.loaded))
      "BOOL_TRUE"
  = Some (false, false).
Proof.
  split; [vm_compute; reflexivity |].
  apply (refresh_drops_unlisted KBool Fixture.loaded Fixture.store' 9
           "BOOL_TRUE" Fixture.fallback).
  - vm_compute. reflexivity.
  - repeat constructor; vm_compute; discriminate.
  - reflexivity.
Defined.

Lemma refresh_last_pair_wins_witness :
  String (fst (refresh (api.ListOk Fixture.twice 3) Fixture.blank))
         "HTTP_HOST"
  = Some ("new.example.com"%string, true).
Proof.
  apply (refresh_last_pair_wins Fixture.blank
           [Fixture.pair "FOO/HTTP_HOST" "old.example.com";
            Fixture.pair "FOO/HTTP_PORT" "80"]
           []
           (Fixture.pair "FOO/HTTP_HOST" " new.example.com ")
           3 "HTTP_HOST").
  - vm_compute. reflexivity.
  - reflexivity.
  - constructor.
Defined.

Lemma narrow_values_in_range_witness :
  mapGet (values Fixture.loaded) (qualify Fixture.loaded "HTTP_PORT")
  = Some " 1234 "%string /\
  forall v ok, Int8 Fixture.loaded "HTTP_PORT" = Some (v, ok) ->
               -128 <= v < 128.
Proof.
  split; [vm_compute; reflexivity |].
  apply (narrow_values_in_range Fixture.loaded "HTTP_PORT" " 1234 ").
  vm_compute. reflexivity.
Defined.

Lemma narrow_exact_when_fits_witness :
  Int8 Fixture.reloaded "HTTP_PORT" = Some (80, true) /\
  Uint8 Fixture.reloaded "HTTP_PORT" = Some (80, true).
Proof.
  destruct (narrow_exact_when_fits Fixture.reloaded "HTTP_PORT" "80"
              80 80 true true) as (H1 & _ & _ & _ & H2 & _).
  - vm_compute. reflexivity.
  - vm_compute. reflexivity.
  - vm_compute. reflexivity.
  - lia.
  - lia.
  - split; [exact H1 | exact H2].
Defined.

Lemma NewSource_fills_options_witness :
  exists s,
    NewSource Fixture.cancelled_opts api.ListErr = inr s /\
    RefreshInterval (options (source s)) = 10 * second /\
    configify.Defaults (Options_method (source s)) = Some configify.Empty.
Proof.
  eexists. split; [reflexivity |].
  match goal with
  | |- context [source ?s] =>
      destruct (NewSource_fills_options Fixture.cancelled_opts api.ListErr
                  s eq_refl) as (_ & _ & H & _ & Hd & _)
  end.
  split; [apply H; vm_compute; reflexivity | exact Hd].
Defined.

Lemma NewSource_accessors_answer_witness :
  exists s,
    NewSource Fixture.cancelled_opts api.ListErr = inr s /\
    exists v found,
      get KInt (source (run s [TimerFire; Fixture.newer])) "ASDF"
      = Some (v, found).
Proof.
  eexists. split; [reflexivity |].
  apply (NewSource_accessors_answer Fixture.cancelled_opts api.ListErr _
           [TimerFire; Fixture.newer] KInt "ASDF" eq_refl).
Defined.

Lemma loop_returns_only_on_cancel_witness :
  reachable Fixture.listing /\
  loop (run Fixture.listing
            [ListReturn api.ListErr; TimerFire; ListReturn api.ListErr])
  <> Returned.
Proof.
  split; [exact fixture_listing_reachable |].
  destruct (loop_returns_only_on_cancel Fixture.listing
              fixture_listing_reachable) as (_ & _ & H).
  apply H; [reflexivity |].
  repeat constructor; discriminate.
Defined.

Lemma snapshot_iff_index_witness :
  reachable Fixture.listing /\
  (hasSnapshot (source Fixture.listing) = true
   <-> (0 < lastIndex (source Fixture.listing))%N).
Proof.
  split; [exact fixture_listing_reachable |].
  apply (snapshot_iff_index Fixture.listing fixture_listing_reachable).
Defined.

Lemma notified_indices_increase_witness :
  reachable Fixture.notified /\
  seen Fixture.notified = [9%N] /\
  StronglySorted N.lt (seen Fixture.notified).
Proof.
  split; [exact fixture_notified_reachable |].
  split; [vm_compute; reflexivity |].
  apply (notified_indices_increase Fixture.notified
           fixture_notified_reachable).
Defined.

Lemma cancelled_at_construction_witness :
  exists s,
    NewSource Fixture.cancelled_opts (api.ListOk Fixture.store 7) = inr s /\
    loop s = Returned /\
    values (source s) = Some (updatedValues Fixture.store).
Proof.
  destruct (cancelled_at_construction Fixture.cancelled_opts
              (api.ListOk Fixture.store 7)
              {| configify.ctxDone := true |} "127.0.0.1:8500"%string
              eq_refl eq_refl eq_refl) as (s & Hnew & Hl & Hv & _).
  exists s. split; [exact Hnew | split; [exact Hl |]].
  apply (Hv Fixture.store 7%N eq_refl). lia.
Defined.

Lemma Watch_last_wins_witness :
  loop Fixture.listing = Listing /\
  called (step (step (step Fixture.listing (CallWatch (Some 1%nat)))
                     (CallWatch (Some 2%nat)))
               Fixture.newer)
  = [2%nat].
Proof.
  split; [reflexivity |].
  apply (Watch_last_wins Fixture.listing (Some 1%nat) 2%nat
           Fixture.store' 9).
  - reflexivity.
  - vm_compute. reflexivity.
Defined.

Lemma WithAddress_client_config_witness :
  exists s,
    WithAddress.NewSource
      [Fixture.setup "127.0.0.1:8500"; Fixture.login "" "world"]
      api.ListErr = inr s /\
    kv (source s) = "127.0.0.1:8500"%string /\
    api.HttpAuth
      (WithAddress.toConsulConfig
         (WithAddress.apply
            [Fixture.setup "127.0.0.1:8500"; Fixture.login "" "world"]
            WithAddress.initial))
    = Some {| api.AuthUsername := ""; api.AuthPassword := "world" |}.
Proof.
  eexists. split; [reflexivity |].
  match goal with
  | |- context [source ?s] =>
      destruct (WithAddress_client_config
                  [Fixture.setup "127.0.0.1:8500"; Fixture.login "" "world"]
                  api.ListErr s eq_refl) as (Hc & _ & _ & _ & Ha)
  end.
  split; [reflexivity |].
  apply Ha. right. discriminate.
Defined.

Lemma WithAddress_unset_options_witness :
  exists s,
    WithAddress.NewSource [Fixture.setup "127.0.0.1:8500"] api.ListErr
    = inr s /\
    configify.RefreshInterval
      (Options_method (source (run s Fixture.failing)))
    = 10 * second /\
    configify.Defaults (Options_method (source (run s Fixture.failing)))
    = Some configify.Empty.
Proof.
  eexists. split; [reflexivity |].
  match goal with
  | |- context [run ?s _] =>
      destruct (WithAddress_unset_options [Fixture.setup "127.0.0.1:8500"]
                  api.ListErr s Fixture.failing eq_refl) as [Hi Hd]
  end.
  split.
  - apply Hi. intros option o [<- | []]. reflexivity.
  - apply Hd. intros option o [<- | []]. reflexivity.
Defined.

Lemma WithAddress_options_as_applied_witness :
  exists s,
    WithAddress.NewSource [Fixture.setup "127.0.0.1:8500"] api.ListErr
    = inr s /\
    Options_method (source (run s [TimerFire; Fixture.newer]))
    = WithAddress.apply [Fixture.setup "127.0.0.1:8500"] WithAddress.initial.
Proof.
  eexists. split; [reflexivity |].
  apply (WithAddress_options_as_applied [Fixture.setup "127.0.0.1:8500"]
           api.ListErr _ [TimerFire; Fixture.newer] eq_refl).
Defined.

End MoreOnTheFixture.

Section Visibility.
Context {E : Extern}.

(** Reads see a change of the store only when a listing returns: the
    timer, a cancellation and registrations leave the answer of every
    accessor as it was. *)
Theorem answers_change_only_on_listing (s : System) (es : list Event)
    (k : Kind) (key : string) :
  Forall (fun e => forall r, e <> ListReturn r) es ->
  get k (source (run s es)) key = get k (source s) key.
Proof.
  revert s. induction es as [| e es IH]; intros s Hall; [reflexivity |].
  apply Forall_cons in Hall as [He Hall].
  change (run s (e :: es)) with (run (step s e) es).
  rewrite (IH (step s e) Hall).
  apply get_same_snapshot.
  - destruct e as [| | r | cb]; cbn; try reflexivity. now destruct (He r).
  - apply step_options.
Qed.

End Visibility.

Section VisibilityOnTheFixture.
#[local] Existing Instance Fixture.imports.

Lemma answers_change_only_on_listing_witness :
  Forall (fun e => forall r, e <> ListReturn r) Fixture.quiet /\
  get KString (source (run (Fixture.running Fixture.loaded) Fixture.quiet))
      "HTTP_HOST"
  = get KString (source (Fixture.running Fixture.loaded)) "HTTP_HOST".
Proof.
  assert (Hall : Forall (fun e => forall r, e <> ListReturn r) Fixture.quiet)
    by (repeat constructor; discriminate).
  split; [exact Hall |].
  apply (answers_change_only_on_listing (Fixture.running Fixture.loaded)
           Fixture.quiet KString "HTTP_HOST" Hall).
Defined.

End VisibilityOnTheFixture.
